(** * A shallow embedding of [whatsapp-mcp-server/whatsapp.py]

    The Python module reads a SQLite archive with two tables,
    [messages] and [chats], and posts outbound messages to a local HTTP
    bridge.  Each SQL query of the module is modelled here as a list
    computation over the two tables:
    - a table is a list of rows; the order of the list is the order in
      which the engine visits the rows;
    - [JOIN] pairs every message row with the chat rows of equal [jid];
    - [ORDER BY] is a stable insertion sort on the row order, i.e. ties
      keep the visiting order (SQLite appends a sequence number to sorter
      keys, which has this effect);
    - [LIMIT ? OFFSET ?] follows SQLite: a negative limit means no limit,
      a negative offset counts as zero;
    - [LIKE] follows SQLite: [%] matches any run of characters, [_] any
      single character, and ASCII letters compare case-insensitively;
    - timestamps are stored as ISO-8601 text of a single format, so
      their comparison is modelled by the comparison of the instants
      they denote, here integers ([Z]);
    - strings are Rocq [string]s (ASCII), which is what [LOWER] and
      the case folding of [LIKE] act on.
    Python exceptions are values of [exn]; a call either returns
    ([Ok]) or raises ([Raise]). *)

From Stdlib Require Import String Ascii List ZArith Bool Lia Sorting.Sorted
  Sorting.Permutation.
Import ListNotations.
Open Scope string_scope.
Open Scope Z_scope.

(** ** Python exceptions and the result of a call *)

Inductive exn : Type :=
| SqliteError (msg : string)   (** [sqlite3.Error] and its subclasses *)
| OverflowError                (** an [int] that does not fit SQLite's 64 bits *)
| ValueError (msg : string).

Inductive res (A : Type) : Type :=
| Ok (a : A)
| Raise (e : exn).
Arguments Ok {A} a.
Arguments Raise {A} e.

Definition res_bind {A B} (r : res A) (k : A -> res B) : res B :=
  match r with
  | Ok a => k a
  | Raise e => Raise e
  end.

Notation "x <- r ;; k" := (res_bind r (fun x => k))
  (at level 61, r at next level, right associativity).

(** ** The archive *)

(** A row of [messages(id, chat_jid, sender, content, timestamp, is_from_me)]. *)
Record msg_row : Type := {
  mr_id : string;
  mr_chat_jid : string;
  mr_sender : string;
  mr_content : string;
  mr_timestamp : Z;
  mr_is_from_me : bool
}.

(** A row of [chats(jid, name, last_message_time)]. *)
Record chat_row : Type := {
  cr_jid : string;
  cr_name : option string;
  cr_last_message_time : option Z
}.

Record db : Type := {
  chats : list chat_row;
  messages : list msg_row
}.

(** [sqlite3.connect(MESSAGES_DB_PATH)] either gives the archive or fails. *)
Inductive store : Type :=
| Open (d : db)
| Unavailable.

Definition connect (st : store) : res db :=
  match st with
  | Open d => Ok d
  | Unavailable => Raise (SqliteError "unable to open database file")
  end.

(** ** The dataclasses of the module *)

Record Message : Type := {
  timestamp : Z;
  sender : string;
  content : string;
  is_from_me : bool;
  chat_jid : string;
  id : string;
  chat_name : option string
}.

Record Chat : Type := {
  jid : string;
  name : option string;
  last_message_time : option Z;
  last_message : option string;
  last_sender : option string;
  last_is_from_me : option bool
}.

Record Contact : Type := {
  phone_number : string;
  contact_name : option string;
  contact_jid : string
}.

Record MessageContext : Type := {
  message : Message;
  before : list Message;
  after : list Message
}.

(** ** SQL machinery *)

(** Parameters passed to [cursor.execute]. *)
Inductive param : Type :=
| PText (s : string)
| PTime (t : Z)
| PInt (z : Z).

(** Python's [sqlite3] binds an [int] only when it fits a signed 64-bit
    integer; otherwise [cursor.execute] raises [OverflowError], which is
    not a subclass of [sqlite3.Error]. *)
Definition int64_ok (z : Z) : bool :=
  (- 2 ^ 63 <=? z) && (z <? 2 ^ 63).

Definition param_ok (p : param) : bool :=
  match p with
  | PInt z => int64_ok z
  | _ => true
  end.

Definition bind_params (ps : list param) : res unit :=
  if forallb param_ok ps then Ok tt else Raise OverflowError.

(** [LIMIT lim OFFSET off]. *)
Definition limit_offset {A} (lim off : Z) (l : list A) : list A :=
  let l' := skipn (Z.to_nat off) l in
  if lim <? 0 then l' else firstn (Z.to_nat lim) l'.

(** Stable insertion sort: [before y x] says that [y] must be placed
    strictly ahead of [x]; rows that are not so ordered keep their
    visiting order. *)
Section Sort.
Context {A : Type} (before_ : A -> A -> bool).

Fixpoint insert_by (x : A) (l : list A) : list A :=
  match l with
  | [] => [x]
  | y :: ys => if before_ y x then y :: insert_by x ys else x :: y :: ys
  end.

Fixpoint sort_by (l : list A) : list A :=
  match l with
  | [] => []
  | x :: xs => insert_by x (sort_by xs)
  end.
End Sort.

(** ASCII case folding, as [LOWER] and [LIKE] do it. *)
Definition lower (c : ascii) : ascii :=
  let n := nat_of_ascii c in
  if (65 <=? n)%nat && (n <=? 90)%nat then ascii_of_nat (n + 32) else c.

Fixpoint LOWER (s : string) : string :=
  match s with
  | EmptyString => EmptyString
  | String c s' => String (lower c) (LOWER s')
  end.

(** [s LIKE p] (no ESCAPE clause). *)
Fixpoint like (p s : string) : bool :=
  match p with
  | EmptyString =>
      match s with EmptyString => true | _ => false end
  | String c p' =>
      if Ascii.eqb c "%"%char then
        (fix any (s : string) : bool :=
           like p' s || match s with
                        | EmptyString => false
                        | String _ s' => any s'
                        end) s
      else
        match s with
        | EmptyString => false
        | String d s' =>
            (Ascii.eqb c "_"%char || Ascii.eqb (lower c) (lower d)) && like p' s'
        end
  end.

(** [messages JOIN chats ON messages.chat_jid = chats.jid]. *)
Definition join_messages (d : db) : list (msg_row * chat_row) :=
  flat_map (fun m => map (pair m)
              (filter (fun c => String.eqb (cr_jid c) (mr_chat_jid m)) (chats d)))
           (messages d).

(** The [Message(...)] built from a joined row
    [(timestamp, sender, chats.name, content, is_from_me, chats.jid, id)]. *)
Definition row_to_message (r : msg_row * chat_row) : Message :=
  let (m, c) := r in
  {| timestamp := mr_timestamp m; sender := mr_sender m;
     chat_name := cr_name c; content := mr_content m;
     is_from_me := mr_is_from_me m; chat_jid := cr_jid c; id := mr_id m |}.

Definition row_ts (r : msg_row * chat_row) : Z := mr_timestamp (fst r).

(** [ORDER BY messages.timestamp DESC] and [... ASC]. *)
Definition order_ts_desc := sort_by (fun y x => row_ts x <? row_ts y).
Definition order_ts_asc := sort_by (fun y x => row_ts y <? row_ts x).

(** ** [get_message_context] *)

Definition get_message_context (st : store) (message_id : string)
    (before_n after_n : Z) : res MessageContext :=
  d <- connect st ;;
  _ <- bind_params [PText message_id] ;;
  match filter (fun r => String.eqb (mr_id (fst r)) message_id) (join_messages d) with
  | [] => Raise (ValueError ("Message with ID " ++ message_id ++ " not found"))
  | r :: _ =>
      let target_message := row_to_message r in
      let tj := mr_chat_jid (fst r) in
      let tt := mr_timestamp (fst r) in
      _ <- bind_params [PText tj; PTime tt; PInt before_n] ;;
      let before_rows :=
        limit_offset before_n 0
          (order_ts_desc
             (filter (fun r' => String.eqb (mr_chat_jid (fst r')) tj
                                && (row_ts r' <? tt)) (join_messages d))) in
      _ <- bind_params [PText tj; PTime tt; PInt after_n] ;;
      let after_rows :=
        limit_offset after_n 0
          (order_ts_asc
             (filter (fun r' => String.eqb (mr_chat_jid (fst r')) tj
                                && (tt <? row_ts r')) (join_messages d))) in
      Ok {| message := target_message;
            before := map row_to_message before_rows;
            after := map row_to_message after_rows |}
  end.

(** ** [list_messages] *)

(** Python truthiness of an [Optional[str]] argument: [None] and [""] are
    false. *)
Definition py_str_arg (o : option string) : option string :=
  match o with
  | Some s => if String.eqb s "" then None else Some s
  | None => None
  end.

(** The [WHERE] clause built from the arguments, conjunction of the
    present filters. *)
Definition message_where (date_range : option (Z * Z))
    (sender_phone_number chat_jid_arg query : option string)
    (r : msg_row * chat_row) : bool :=
  let m := fst r in
  (match date_range with
   | Some (lo, hi) => (lo <=? mr_timestamp m) && (mr_timestamp m <=? hi)
   | None => true end)
  && (match py_str_arg sender_phone_number with
      | Some s => String.eqb (mr_sender m) s
      | None => true end)
  && (match py_str_arg chat_jid_arg with
      | Some j => String.eqb (mr_chat_jid m) j
      | None => true end)
  && (match py_str_arg query with
      | Some q => like (LOWER ("%" ++ q ++ "%")) (LOWER (mr_content m))
      | None => true end).

(** The parameters passed to the listing query, in order. *)
Definition message_params (date_range : option (Z * Z))
    (sender_phone_number chat_jid_arg query : option string)
    (limit offset : Z) : list param :=
  (match date_range with Some (lo, hi) => [PTime lo; PTime hi] | None => [] end)
  ++ (match py_str_arg sender_phone_number with Some s => [PText s] | None => [] end)
  ++ (match py_str_arg chat_jid_arg with Some j => [PText j] | None => [] end)
  ++ (match py_str_arg query with Some q => [PText ("%" ++ q ++ "%")] | None => [] end)
  ++ [PInt limit; PInt offset].

(** The rows selected by the listing query: filtered, ordered by
    timestamp descending, then windowed. *)
Definition select_messages (d : db) (date_range : option (Z * Z))
    (sender_phone_number chat_jid_arg query : option string)
    (limit offset : Z) : list Message :=
  map row_to_message
    (limit_offset limit offset
       (order_ts_desc
          (filter (message_where date_range sender_phone_number chat_jid_arg query)
                  (join_messages d)))).

(** The [for msg in result] loop of the context expansion. *)
Fixpoint expand_context (st : store) (result : list Message)
    (context_before context_after : Z) : res (list Message) :=
  match result with
  | [] => Ok []
  | msg :: rest =>
      context <- get_message_context st (id msg) context_before context_after ;;
      tail <- expand_context st rest context_before context_after ;;
      Ok (before context ++ message context :: after context ++ tail)%list
  end.

(** [except sqlite3.Error: return []]; other exceptions propagate. *)
Definition swallow_sqlite {A} (r : res (list A)) : res (list A) :=
  match r with
  | Raise (SqliteError _) => Ok []
  | r => r
  end.

Definition list_messages (st : store) (date_range : option (Z * Z))
    (sender_phone_number chat_jid_arg query : option string)
    (limit page : Z) (include_context : bool)
    (context_before context_after : Z) : res (list Message) :=
  swallow_sqlite (
    d <- connect st ;;
    let offset := page * limit in
    _ <- bind_params (message_params date_range sender_phone_number chat_jid_arg
                        query limit offset) ;;
    let result := select_messages d date_range sender_phone_number chat_jid_arg
                    query limit offset in
    if include_context && negb (match result with [] => true | _ => false end)
    then expand_context st result context_before context_after
    else Ok result).

(** ** [list_chats] *)

(** SQLite's [BINARY] collation on ASCII text: byte-wise lexicographic. *)
Fixpoint str_ltb (s t : string) : bool :=
  match s, t with
  | EmptyString, EmptyString => false
  | EmptyString, String _ _ => true
  | String _ _, EmptyString => false
  | String a s', String b t' =>
      let na := nat_of_ascii a in
      let nb := nat_of_ascii b in
      if (na <? nb)%nat then true
      else if (nb <? na)%nat then false
      else str_ltb s' t'
  end.

(** NULL sorts before every value in SQLite. *)
Definition opt_ltb {A} (ltb : A -> A -> bool) (x y : option A) : bool :=
  match x, y with
  | None, Some _ => true
  | Some a, Some b => ltb a b
  | _, _ => false
  end.

(** [chats LEFT JOIN messages ON chats.jid = messages.chat_jid
     AND chats.last_message_time = messages.timestamp]. *)
Definition left_join_last (d : db) : list (chat_row * option msg_row) :=
  flat_map (fun c =>
    match filter (fun m => String.eqb (cr_jid c) (mr_chat_jid m)
                           && match cr_last_message_time c with
                              | Some t => t =? mr_timestamp m
                              | None => false end) (messages d) with
    | [] => [(c, None)]
    | ms => map (fun m => (c, Some m)) ms
    end) (chats d).

Definition chat_where (query : option string) (r : chat_row * option msg_row) : bool :=
  match py_str_arg query with
  | Some q =>
      let p := "%" ++ q ++ "%" in
      match cr_name (fst r) with
      | Some n => like (LOWER p) (LOWER n)
      | None => false
      end || like p (cr_jid (fst r))
  | None => true
  end.

(** [ORDER BY chats.last_message_time DESC] or [ORDER BY chats.name]. *)
Definition order_chats (sort_by_arg : string) :
    list (chat_row * option msg_row) -> list (chat_row * option msg_row) :=
  if String.eqb sort_by_arg "last_active"
  then sort_by (fun y x => opt_ltb Z.ltb (cr_last_message_time (fst x))
                                         (cr_last_message_time (fst y)))
  else sort_by (fun y x => opt_ltb str_ltb (cr_name (fst y)) (cr_name (fst x))).

Definition row_to_chat (r : chat_row * option msg_row) : Chat :=
  let (c, om) := r in
  {| jid := cr_jid c; name := cr_name c;
     last_message_time := cr_last_message_time c;
     last_message := option_map mr_content om;
     last_sender := option_map mr_sender om;
     last_is_from_me := option_map mr_is_from_me om |}.

Definition list_chats (st : store) (query : option string) (limit page : Z)
    (include_last_message : bool) (sort_by_arg : string) : res (list Chat) :=
  swallow_sqlite (
    d <- connect st ;;
    if negb include_last_message
    then (* the SELECT list names messages.* without the join *)
      Raise (SqliteError "no such column: messages.content")
    else
      let offset := page * limit in
      _ <- bind_params ((match py_str_arg query with
                         | Some q => [PText ("%" ++ q ++ "%"); PText ("%" ++ q ++ "%")]
                         | None => [] end) ++ [PInt limit; PInt offset]) ;;
      Ok (map row_to_chat
            (limit_offset limit offset
               (order_chats sort_by_arg (filter (chat_where query) (left_join_last d)))))).

(** ** [search_contacts] *)

(** [jid NOT LIKE '%@g.us'] is the group filter of the contact search. *)
Definition group_pattern (j : string) : bool := like "%@g.us" j.

Definition contact_where (search_pattern : string) (c : chat_row) : bool :=
  (match cr_name c with
   | Some n => like (LOWER search_pattern) (LOWER n)
   | None => false
   end || like (LOWER search_pattern) (LOWER (cr_jid c)))
  && negb (group_pattern (cr_jid c)).

Definition pair_eqb (x y : string * option string) : bool :=
  String.eqb (fst x) (fst y)
  && match snd x, snd y with
     | Some a, Some b => String.eqb a b
     | None, None => true
     | _, _ => false
     end.

(** [SELECT DISTINCT]: the first of equal rows is kept. *)
Fixpoint distinct (l : list (string * option string)) : list (string * option string) :=
  match l with
  | [] => []
  | x :: xs => x :: filter (fun y => negb (pair_eqb x y)) (distinct xs)
  end.

(** [ORDER BY name, jid]. *)
Definition order_name_jid : list (string * option string) -> list (string * option string) :=
  sort_by (fun y x => opt_ltb str_ltb (snd y) (snd x)
                      || (negb (opt_ltb str_ltb (snd x) (snd y))
                          && str_ltb (fst y) (fst x))).

(** [s.split('@')[0]]. *)
Fixpoint split_at_first (s : string) : string :=
  match s with
  | EmptyString => EmptyString
  | String c s' => if Ascii.eqb c "@"%char then EmptyString else String c (split_at_first s')
  end.

Definition row_to_contact (r : string * option string) : Contact :=
  {| phone_number := split_at_first (fst r); contact_name := snd r;
     contact_jid := fst r |}.

Definition search_contacts (st : store) (query : string) : res (list Contact) :=
  swallow_sqlite (
    d <- connect st ;;
    let search_pattern := "%" ++ query ++ "%" in
    _ <- bind_params [PText search_pattern; PText search_pattern] ;;
    Ok (map row_to_contact
          (limit_offset 50 0
             (order_name_jid
                (distinct (map (fun c => (cr_jid c, cr_name c))
                               (filter (contact_where search_pattern) (chats d)))))))).

(** ** [send_message] *)

(** JSON values, as [response.json()] decodes them. *)
#[local] Set Warnings "-register-all".
Inductive json : Type :=
| JNull
| JBool (b : bool)
| JNum (z : Z)
| JStr (s : string)
| JArr (l : list json)
| JObj (kvs : list (string * json)).

(** The outcome of [response.json()]: a value, or the text of the decoding
    error.  With [requests] 2.27 and later that error is a
    [requests.RequestException], so the first handler catches it. *)
Inductive json_parse : Type :=
| JsonOk (v : json)
| JsonError (msg : string).

(** The outcome of [requests.post(url, json=payload)]. *)
Inductive http_outcome : Type :=
| TransportError (msg : string)        (** a [requests.RequestException] *)
| Response (status_code : Z) (text : string) (body : json_parse).

Definition WHATSAPP_API_BASE_URL : string := "http://localhost:8080/api".

Definition payload : Type := list (string * json).

(** [dict.get(key, default)] on a dict decoded from JSON: the last binding
    of a repeated key wins. *)
Definition dict_get (kvs : list (string * json)) (key : string) (default : json) : json :=
  fold_left (fun acc kv => if String.eqb (fst kv) key then snd kv else acc) kvs default.

(** The Python type name in [AttributeError]'s message. *)
Definition py_type_name (v : json) : string :=
  match v with
  | JNull => "NoneType" | JBool _ => "bool" | JNum _ => "int"
  | JStr _ => "str" | JArr _ => "list" | JObj _ => "dict"
  end.

(** Decimal digits of a natural number, as [str(int)] prints them. *)
Fixpoint digits_fuel (fuel : nat) (n : Z) (acc : string) : string :=
  match fuel with
  | O => acc
  | S fuel' =>
      let acc' := String (ascii_of_nat (48 + Z.to_nat (n mod 10))) acc in
      if n <? 10 then acc' else digits_fuel fuel' (n / 10) acc'
  end.

Definition py_str_int (z : Z) : string :=
  if z <? 0 then "-" ++ digits_fuel 64 (- z) ""
  else digits_fuel 64 z "".

(** [send_message(recipient, message)] against the bridge [post]; the
    second component lists the POST requests issued, in order. *)
Definition send_message (post : string -> payload -> http_outcome)
    (recipient message_text : string) : (json * json) * list (string * payload) :=
  if String.eqb recipient "" then
    ((JBool false, JStr "Recipient must be provided"), [])
  else
    let url := WHATSAPP_API_BASE_URL ++ "/send" in
    let pl : payload := [("recipient", JStr recipient); ("message", JStr message_text)] in
    let outcome :=
      match post url pl with
      | TransportError e => (JBool false, JStr ("Request error: " ++ e))
      | Response code text body =>
          if code =? 200 then
            match body with
            | JsonError e => (JBool false, JStr ("Request error: " ++ e))
            | JsonOk (JObj kvs) =>
                (dict_get kvs "success" (JBool false),
                 dict_get kvs "message" (JStr "Unknown response"))
            | JsonOk v =>
                (JBool false, JStr ("Unexpected error: '" ++ py_type_name v
                                    ++ "' object has no attribute 'get'"))
            end
          else (JBool false, JStr ("Error: HTTP " ++ py_str_int code ++ " - " ++ text))
      end in
    (outcome, [(url, pl)]).

(** ** [Chat.is_group] *)

(** [s.endswith(suffix)]. *)
Definition endswith (s suffix : string) : bool :=
  (String.length suffix <=? String.length s)%nat
  && String.eqb (substring (String.length s - String.length suffix)
                           (String.length suffix) s) suffix.

Definition is_group (c : Chat) : bool := endswith (jid c) "@g.us".

(** ** [print_recent_messages] *)




(** ** [get_contact_chats] *)

(** [chats JOIN messages ON chats.jid = messages.chat_jid], chats outer. *)
Definition join_chats_messages (d : db) : list (chat_row * msg_row) :=
  flat_map (fun c => map (pair c)
              (filter (fun m => String.eqb (cr_jid c) (mr_chat_jid m)) (messages d)))
           (chats d).

Definition opt_eqb {A} (eqb : A -> A -> bool) (x y : option A) : bool :=
  match x, y with
  | Some a, Some b => eqb a b
  | None, None => true
  | _, _ => false
  end.

(** Equality of the six selected columns, which are the fields of [Chat]. *)
Definition chat_eqb (x y : Chat) : bool :=
  String.eqb (jid x) (jid y) && opt_eqb String.eqb (name x) (name y)
  && opt_eqb Z.eqb (last_message_time x) (last_message_time y)
  && opt_eqb String.eqb (last_message x) (last_message y)
  && opt_eqb String.eqb (last_sender x) (last_sender y)
  && opt_eqb Bool.eqb (last_is_from_me x) (last_is_from_me y).

(** [SELECT DISTINCT] on the six columns: the first of equal rows is kept. *)
Fixpoint distinct_chats (l : list Chat) : list Chat :=
  match l with
  | [] => []
  | x :: xs => x :: filter (fun y => negb (chat_eqb x y)) (distinct_chats xs)
  end.

(** [ORDER BY c.last_message_time DESC]. *)
Definition order_last_active_desc : list Chat -> list Chat :=
  sort_by (fun y x => opt_ltb Z.ltb (last_message_time x) (last_message_time y)).

Definition get_contact_chats (st : store) (jid_arg : string) (limit page : Z)
    : res (list Chat) :=
  swallow_sqlite (
    d <- connect st ;;
    _ <- bind_params [PText jid_arg; PText jid_arg; PInt limit; PInt (page * limit)] ;;
    Ok (limit_offset limit (page * limit)
          (order_last_active_desc
             (distinct_chats
                (map (fun r => row_to_chat (fst r, Some (snd r)))
                   (filter (fun r => String.eqb (mr_sender (snd r)) jid_arg
                                     || String.eqb (cr_jid (fst r)) jid_arg)
                           (join_chats_messages d))))))).

(** ** [get_last_interaction], [get_chat], [get_direct_chat_by_contact] *)

(** [except sqlite3.Error: return None]; other exceptions propagate. *)
Definition swallow_sqlite_opt {A} (r : res (option A)) : res (option A) :=
  match r with
  | Raise (SqliteError _) => Ok None
  | r => r
  end.

(** [WHERE m.sender = ? OR c.jid = ?] on a joined message row. *)
Definition involves (jid_arg : string) (r : msg_row * chat_row) : bool :=
  String.eqb (mr_sender (fst r)) jid_arg || String.eqb (cr_jid (snd r)) jid_arg.

Definition get_last_interaction (st : store) (jid_arg : string) : res (option Message) :=
  swallow_sqlite_opt (
    d <- connect st ;;
    _ <- bind_params [PText jid_arg; PText jid_arg] ;;
    Ok (option_map row_to_message
          (hd_error (limit_offset 1 0
             (order_ts_desc (filter (involves jid_arg) (join_messages d))))))).

Definition get_chat (st : store) (chat_jid_arg : string) (include_last_message : bool)
    : res (option Chat) :=
  swallow_sqlite_opt (
    d <- connect st ;;
    if negb include_last_message
    then (* the SELECT list names m.* without the join *)
      Raise (SqliteError "no such column: m.content")
    else
      _ <- bind_params [PText chat_jid_arg] ;;
      Ok (option_map row_to_chat
            (hd_error (filter (fun r => String.eqb (cr_jid (fst r)) chat_jid_arg)
                              (left_join_last d))))).

Definition get_direct_chat_by_contact (st : store) (sender_phone_number : string)
    : res (option Chat) :=
  swallow_sqlite_opt (
    d <- connect st ;;
    let pat := "%" ++ sender_phone_number ++ "%" in
    _ <- bind_params [PText pat] ;;
    Ok (option_map row_to_chat
          (hd_error (limit_offset 1 0
             (filter (fun r => like pat (cr_jid (fst r))
                               && negb (like "%@g.us" (cr_jid (fst r))))
                     (left_join_last d)))))).

(** ** Sample archive *)

Definition chat111 : chat_row :=
  {| cr_jid := "111@s.whatsapp.net"; cr_name := Some "Alice";
     cr_last_message_time := Some 3 |}.

Definition msg_at (i : string) (j : string) (t : Z) : msg_row :=
  {| mr_id := i; mr_chat_jid := j; mr_sender := "111"; mr_content := "hello";
     mr_timestamp := t; mr_is_from_me := false |}.

(** Conversation [111@s.whatsapp.net] with three messages at T1 < T2 < T3. *)
Definition db_three : db :=
  {| chats := [chat111];
     messages := [msg_at "m1" "111@s.whatsapp.net" 1;
                  msg_at "m2" "111@s.whatsapp.net" 2;
                  msg_at "m3" "111@s.whatsapp.net" 3] |}.


(** Two conversations that both hold a message with identifier [m1]. *)
Definition chatA : chat_row :=
  {| cr_jid := "a@s.whatsapp.net"; cr_name := Some "A"; cr_last_message_time := Some 1 |}.
Definition chatB : chat_row :=
  {| cr_jid := "b@s.whatsapp.net"; cr_name := Some "B"; cr_last_message_time := Some 5 |}.

Definition db_collide : db :=
  {| chats := [chatA; chatB];
     messages := [msg_at "m1" "a@s.whatsapp.net" 1; msg_at "m1" "b@s.whatsapp.net" 5] |}.

(** Conversations named "Bob", "alice" and unnamed. *)
Definition db_names : db :=
  {| chats := [{| cr_jid := "1@s.whatsapp.net"; cr_name := Some "Bob";
                  cr_last_message_time := None |};
               {| cr_jid := "2@s.whatsapp.net"; cr_name := Some "alice";
                  cr_last_message_time := None |};
               {| cr_jid := "3@s.whatsapp.net"; cr_name := None;
                  cr_last_message_time := None |}];
     messages := [] |}.

(** A single direct conversation, named "Bob". *)
Definition db_bob : db :=
  {| chats := [{| cr_jid := "15551234567@s.whatsapp.net"; cr_name := Some "Bob";
                  cr_last_message_time := None |}];
     messages := [] |}.

(** The matching rule the specification states for [search_contacts]:
    [q] occurs as a substring of [s], ignoring ASCII case. *)
Fixpoint occurs (q s : string) : bool :=
  String.prefix q s || match s with
                       | EmptyString => false
                       | String _ s' => occurs q s'
                       end.

Definition spec_substring_ci (q s : string) : bool := occurs (LOWER q) (LOWER s).

(** What the module reports as a conversation's last message: the
    fields of a message of that conversation sent at exactly its
    [last_message_time], or no fields at all when there is no such
    message. *)
Definition last_message_consistent (d : db) (ch : Chat) : Prop :=
  (exists m, In m (messages d) /\ mr_chat_jid m = jid ch /\
     last_message_time ch = Some (mr_timestamp m) /\
     last_message ch = Some (mr_content m) /\ last_sender ch = Some (mr_sender m) /\
     last_is_from_me ch = Some (mr_is_from_me m)) \/
  (last_message ch = None /\ last_sender ch = None /\ last_is_from_me ch = None /\
   forall m, In m (messages d) -> mr_chat_jid m = jid ch ->
     last_message_time ch <> Some (mr_timestamp m)).

(** * Properties *)

(** ** Joins, sorting and windows *)

Lemma join_messages_spec (d : db) (r : msg_row * chat_row) :
  In r (join_messages d) <->
  In (fst r) (messages d) /\ In (snd r) (chats d) /\ cr_jid (snd r) = mr_chat_jid (fst r).
Proof.
  destruct r as [m c]; unfold join_messages; rewrite in_flat_map; simpl.
  split.
  - intros (m' & Hm' & Hin). apply in_map_iff in Hin as (c' & Heq & Hc).
    inversion Heq; subst. apply filter_In in Hc as [Hc Hj].
    apply String.eqb_eq in Hj. auto.
  - intros (Hm & Hc & Hj). exists m; split; [exact Hm|].
    apply in_map_iff. exists c; split; [reflexivity|].
    apply filter_In; split; [exact Hc | apply String.eqb_eq; exact Hj].
Qed.

Lemma row_to_message_chat_jid (d : db) (r : msg_row * chat_row) :
  In r (join_messages d) -> chat_jid (row_to_message r) = mr_chat_jid (fst r).
Proof.
  intros H; apply join_messages_spec in H as (_ & _ & Hj).
  destruct r; exact Hj.
Qed.

Section SortFacts.
Context {A : Type} (before_ : A -> A -> bool).

Lemma insert_by_perm (x : A) (l : list A) : Permutation (insert_by before_ x l) (x :: l).
Proof.
  induction l as [|y ys IH]; simpl; [reflexivity|].
  destruct (before_ y x).
  - rewrite IH. apply perm_swap.
  - reflexivity.
Qed.

Lemma sort_by_perm (l : list A) : Permutation (sort_by before_ l) l.
Proof.
  induction l as [|x xs IH]; simpl; [reflexivity|].
  rewrite insert_by_perm. now apply perm_skip.
Qed.

Lemma sort_by_In (l : list A) (x : A) : In x (sort_by before_ l) <-> In x l.
Proof. split; apply Permutation_in; [|symmetry]; apply sort_by_perm. Qed.

(** [y] follows [x] in the output when [y] is not strictly ahead of [x]. *)
Definition not_ahead (x y : A) : Prop := before_ y x = false.

Hypothesis before_asym : forall x y, before_ x y = true -> before_ y x = false.

Lemma insert_by_sorted (x : A) (l : list A) :
  Sorted not_ahead l -> Sorted not_ahead (insert_by before_ x l).
Proof.
  induction l as [|y ys IH]; intros Hs; simpl.
  - constructor; constructor.
  - inversion Hs as [|? ? Hys Hhd]; subst.
    destruct (before_ y x) eqn:Eyx.
    + constructor; [now apply IH|].
      destruct ys as [|z zs]; simpl.
      * constructor. unfold not_ahead. now apply before_asym.
      * inversion Hhd; subst.
        destruct (before_ z x); constructor; unfold not_ahead;
          [assumption | now apply before_asym].
    + constructor; [exact Hs|]. constructor. exact Eyx.
Qed.

Lemma sort_by_sorted (l : list A) : Sorted not_ahead (sort_by before_ l).
Proof.
  induction l; simpl; [constructor | now apply insert_by_sorted].
Qed.
End SortFacts.

Lemma skipn_sorted {A} (R : A -> A -> Prop) (n : nat) (l : list A) :
  Sorted R l -> Sorted R (skipn n l).
Proof.
  revert l; induction n as [|n IH]; intros [|x l] Hs; simpl; auto.
  apply IH. now inversion Hs.
Qed.

Lemma firstn_sorted {A} (R : A -> A -> Prop) (n : nat) (l : list A) :
  Sorted R l -> Sorted R (firstn n l).
Proof.
  revert l; induction n as [|n IH]; intros [|x l] Hs; simpl; auto.
  inversion Hs as [|? ? Hl Hhd]; subst. constructor; [now apply IH|].
  destruct n, l; simpl; auto. inversion Hhd; auto.
Qed.

Lemma limit_offset_sorted {A} (R : A -> A -> Prop) lim off (l : list A) :
  Sorted R l -> Sorted R (limit_offset lim off l).
Proof.
  intros Hs; unfold limit_offset.
  destruct (lim <? 0); [|apply firstn_sorted]; now apply skipn_sorted.
Qed.

Lemma firstn_In' {A} (n : nat) (l : list A) (x : A) : In x (firstn n l) -> In x l.
Proof. intros H. rewrite <- (firstn_skipn n l). apply in_or_app; now left. Qed.

Lemma skipn_In' {A} (n : nat) (l : list A) (x : A) : In x (skipn n l) -> In x l.
Proof. intros H. rewrite <- (firstn_skipn n l). apply in_or_app; now right. Qed.

Lemma limit_offset_In {A} lim off (l : list A) (x : A) :
  In x (limit_offset lim off l) -> In x l.
Proof.
  unfold limit_offset; destruct (lim <? 0); intros H;
    [|apply firstn_In' in H]; eapply skipn_In'; exact H.
Qed.

Lemma limit_offset_length {A} (lim off : Z) (l : list A) :
  0 <= lim -> (length (limit_offset lim off l) <= Z.to_nat lim)%nat.
Proof.
  intros H; unfold limit_offset.
  destruct (Z.ltb_spec lim 0); [lia|]. rewrite length_firstn; lia.
Qed.

Lemma Sorted_map {A B} (f : A -> B) (R : A -> A -> Prop) (R' : B -> B -> Prop) (l : list A) :
  (forall x y, R x y -> R' (f x) (f y)) -> Sorted R l -> Sorted R' (map f l).
Proof.
  intros HR Hs; induction Hs as [|x l Hs IH Hhd]; simpl; constructor; auto.
  destruct Hhd; simpl; constructor; auto.
Qed.

(** ** [get_message_context] *)

Lemma row_to_message_timestamp (r : msg_row * chat_row) :
  timestamp (row_to_message r) = row_ts r.
Proof. destruct r; reflexivity. Qed.

Lemma row_to_message_id (r : msg_row * chat_row) :
  id (row_to_message r) = mr_id (fst r).
Proof. destruct r; reflexivity. Qed.

Lemma bind_params_ok (ps : list param) (u : unit) :
  bind_params ps = Ok u <-> forallb param_ok ps = true.
Proof.
  unfold bind_params; destruct (forallb param_ok ps); split; intros H;
    try discriminate; try reflexivity. destruct u; reflexivity.
Qed.

(** The shape of a context returned by [get_message_context]. *)
Lemma get_message_context_ok_inv (st : store) (message_id : string) (b a : Z)
    (ctx : MessageContext) :
  get_message_context st message_id b a = Ok ctx ->
  exists d r,
    st = Open d /\ In r (join_messages d) /\ mr_id (fst r) = message_id /\
    int64_ok b = true /\ int64_ok a = true /\
    message ctx = row_to_message r /\
    before ctx = map row_to_message
      (limit_offset b 0 (order_ts_desc
         (filter (fun r' => String.eqb (mr_chat_jid (fst r')) (mr_chat_jid (fst r))
                            && (row_ts r' <? mr_timestamp (fst r))) (join_messages d)))) /\
    after ctx = map row_to_message
      (limit_offset a 0 (order_ts_asc
         (filter (fun r' => String.eqb (mr_chat_jid (fst r')) (mr_chat_jid (fst r))
                            && (mr_timestamp (fst r) <? row_ts r')) (join_messages d)))).
Proof.
  unfold get_message_context, bind_params.
  destruct st as [d|]; simpl; [|discriminate].
  destruct (filter _ (join_messages d)) as [|r rs] eqn:Ef; [discriminate|].
  match type of Ef with filter ?f ?l = _ =>
    assert (Hr : In r (filter f l)) by (rewrite Ef; now left) end.
  apply filter_In in Hr as [Hr Hid]. apply String.eqb_eq in Hid.
  simpl. destruct (int64_ok b) eqn:Eb; simpl; [|discriminate].
  destruct (int64_ok a) eqn:Ea; simpl; [|discriminate].
  intros H; inversion H; subst; clear H.
  exists d, r; repeat split; auto.
Qed.

Lemma in_before_window (d : db) (r : msg_row * chat_row) (b : Z) (m : Message) :
  In m (map row_to_message
    (limit_offset b 0 (order_ts_desc
       (filter (fun r' => String.eqb (mr_chat_jid (fst r')) (mr_chat_jid (fst r))
                          && (row_ts r' <? mr_timestamp (fst r))) (join_messages d))))) ->
  exists r', m = row_to_message r' /\ In r' (join_messages d) /\
             mr_chat_jid (fst r') = mr_chat_jid (fst r) /\ row_ts r' < mr_timestamp (fst r).
Proof.
  intros H. apply in_map_iff in H as (r' & <- & H).
  apply limit_offset_In in H. unfold order_ts_desc in H. apply sort_by_In in H.
  apply filter_In in H as [Hj Hc]. apply andb_prop in Hc as [Hc Ht].
  apply String.eqb_eq in Hc. apply Z.ltb_lt in Ht. eauto.
Qed.

Lemma in_after_window (d : db) (r : msg_row * chat_row) (a : Z) (m : Message) :
  In m (map row_to_message
    (limit_offset a 0 (order_ts_asc
       (filter (fun r' => String.eqb (mr_chat_jid (fst r')) (mr_chat_jid (fst r))
                          && (mr_timestamp (fst r) <? row_ts r')) (join_messages d))))) ->
  exists r', m = row_to_message r' /\ In r' (join_messages d) /\
             mr_chat_jid (fst r') = mr_chat_jid (fst r) /\ mr_timestamp (fst r) < row_ts r'.
Proof.
  intros H. apply in_map_iff in H as (r' & <- & H).
  apply limit_offset_In in H. unfold order_ts_asc in H. apply sort_by_In in H.
  apply filter_In in H as [Hj Hc]. apply andb_prop in Hc as [Hc Ht].
  apply String.eqb_eq in Hc. apply Z.ltb_lt in Ht. eauto.
Qed.

(** The before-window comes out newest first, the after-window oldest
    first. *)
Lemma get_message_context_window_orders (st : store) (message_id : string) (b a : Z)
    (ctx : MessageContext) :
  get_message_context st message_id b a = Ok ctx ->
  Sorted (fun x y => timestamp y <= timestamp x) (before ctx) /\
  Sorted (fun x y => timestamp x <= timestamp y) (after ctx).
Proof.
  intros H. apply get_message_context_ok_inv in H
    as (d & r & -> & _ & _ & _ & _ & _ & -> & ->).
  split.
  - apply (Sorted_map row_to_message (not_ahead (fun y x => row_ts x <? row_ts y))).
    + intros x y Hxy; unfold not_ahead in Hxy; rewrite !row_to_message_timestamp.
      apply Z.ltb_ge in Hxy; exact Hxy.
    + apply limit_offset_sorted, sort_by_sorted.
      intros x y Hxy; apply Z.ltb_lt in Hxy; apply Z.ltb_ge; lia.
  - apply (Sorted_map row_to_message (not_ahead (fun y x => row_ts y <? row_ts x))).
    + intros x y Hxy; unfold not_ahead in Hxy; rewrite !row_to_message_timestamp.
      apply Z.ltb_ge in Hxy; exact Hxy.
    + apply limit_offset_sorted, sort_by_sorted.
      intros x y Hxy; apply Z.ltb_lt in Hxy; apply Z.ltb_ge; lia.
Qed.

(** C1 (the defect).  On conversation [111@s.whatsapp.net] with messages
    at T1 = 1, T2 = 2, T3 = 3, the context of the message at T3 with two
    before-entries lists them as T2, T1: the before-window is returned in
    the descending order of its query, not reversed into ascending
    chronological order. *)
Theorem get_message_context_before_descending_example :
  exists ctx, get_message_context (Open db_three) "m3" 2 0 = Ok ctx /\
              map timestamp (before ctx) = [2; 1] /\ after ctx = [].
Proof. eexists; split; [reflexivity | split; reflexivity]. Qed.

(** C2.  Whenever [get_message_context(id, b, a)] returns a context for
    counts [b] and [a], it has at most [b] before-entries and at most [a]
    after-entries, all in the target's conversation, the before-entries
    strictly earlier and the after-entries strictly later than the target;
    hence neither window holds the target nor any message with exactly the
    target's timestamp. *)
Theorem get_message_context_windows (st : store) (message_id : string) (b a : nat)
    (ctx : MessageContext) :
  get_message_context st message_id (Z.of_nat b) (Z.of_nat a) = Ok ctx ->
  (length (before ctx) <= b)%nat /\ (length (after ctx) <= a)%nat /\
  (forall m, In m (before ctx) ->
     chat_jid m = chat_jid (message ctx) /\ timestamp m < timestamp (message ctx)) /\
  (forall m, In m (after ctx) ->
     chat_jid m = chat_jid (message ctx) /\ timestamp (message ctx) < timestamp m) /\
  ~ In (message ctx) (before ctx) /\ ~ In (message ctx) (after ctx) /\
  (forall m, In m (before ctx) \/ In m (after ctx) -> timestamp m <> timestamp (message ctx)).
Proof.
  intros H. apply get_message_context_ok_inv in H
    as (d & r & -> & Hr & _ & _ & _ & Hmsg & Hb & Ha).
  assert (Hbef : forall m, In m (before ctx) ->
     chat_jid m = chat_jid (message ctx) /\ timestamp m < timestamp (message ctx)).
  { intros m Hm. rewrite Hb in Hm.
    apply in_before_window in Hm as (r' & -> & Hr' & Hc & Ht).
    rewrite Hmsg, !row_to_message_timestamp,
      (row_to_message_chat_jid d r' Hr'), (row_to_message_chat_jid d r Hr).
    split; [exact Hc | exact Ht]. }
  assert (Haft : forall m, In m (after ctx) ->
     chat_jid m = chat_jid (message ctx) /\ timestamp (message ctx) < timestamp m).
  { intros m Hm. rewrite Ha in Hm.
    apply in_after_window in Hm as (r' & -> & Hr' & Hc & Ht).
    rewrite Hmsg, !row_to_message_timestamp,
      (row_to_message_chat_jid d r' Hr'), (row_to_message_chat_jid d r Hr).
    split; [exact Hc | exact Ht]. }
  repeat split.
  - rewrite Hb, length_map.
    pose proof (limit_offset_length (Z.of_nat b) 0
      (order_ts_desc (filter (fun r' => String.eqb (mr_chat_jid (fst r')) (mr_chat_jid (fst r))
                          && (row_ts r' <? mr_timestamp (fst r))) (join_messages d)))) as L.
    rewrite Nat2Z.id in L. apply L; lia.
  - rewrite Ha, length_map.
    pose proof (limit_offset_length (Z.of_nat a) 0
      (order_ts_asc (filter (fun r' => String.eqb (mr_chat_jid (fst r')) (mr_chat_jid (fst r))
                          && (mr_timestamp (fst r) <? row_ts r')) (join_messages d)))) as L.
    rewrite Nat2Z.id in L. apply L; lia.
  - exact (proj1 (Hbef m H)).
  - exact (proj2 (Hbef m H)).
  - exact (proj1 (Haft m H)).
  - exact (proj2 (Haft m H)).
  - intros Hin. apply Hbef in Hin. lia.
  - intros Hin. apply Haft in Hin. lia.
  - intros m [Hm|Hm]; [apply Hbef in Hm | apply Haft in Hm]; lia.
Qed.

Lemma get_message_context_windows_witness :
  match get_message_context (Open db_three) "m2" (Z.of_nat 1) (Z.of_nat 1) with
  | Ok ctx =>
      (length (before ctx) <= 1)%nat /\ (length (after ctx) <= 1)%nat /\
      (forall m, In m (before ctx) ->
         chat_jid m = chat_jid (message ctx) /\ timestamp m < timestamp (message ctx)) /\
      (forall m, In m (after ctx) ->
         chat_jid m = chat_jid (message ctx) /\ timestamp (message ctx) < timestamp m) /\
      ~ In (message ctx) (before ctx) /\ ~ In (message ctx) (after ctx) /\
      (forall m, In m (before ctx) \/ In m (after ctx) -> timestamp m <> timestamp (message ctx))
  | Raise _ => False
  end.
Proof. exact (get_message_context_windows (Open db_three) "m2" 1 1 _ eq_refl). Defined.

(** Every message belongs to a conversation of the archive
    ([FOREIGN KEY (chat_jid) REFERENCES chats(jid)]). *)
Definition foreign_keys_hold (d : db) : Prop :=
  forall m, In m (messages d) -> exists c, In c (chats d) /\ cr_jid c = mr_chat_jid m.

Lemma lookup_by_id_nonempty (d : db) (message_id : string) :
  foreign_keys_hold d ->
  (exists m, In m (messages d) /\ mr_id m = message_id) ->
  filter (fun r => String.eqb (mr_id (fst r)) message_id) (join_messages d) <> [].
Proof.
  intros Hfk (m & Hm & Hid) Hnil.
  destruct (Hfk m Hm) as (c & Hc & Hj).
  assert (Hin : In (m, c) (filter (fun r => String.eqb (mr_id (fst r)) message_id)
                               (join_messages d))).
  { apply filter_In; split.
    - apply join_messages_spec; simpl; auto.
    - apply String.eqb_eq; exact Hid. }
  rewrite Hnil in Hin; exact Hin.
Qed.

Lemma db_three_foreign_keys : foreign_keys_hold db_three.
Proof.
  intros m Hm; exists chat111; split; [left; reflexivity|].
  simpl in Hm; repeat destruct Hm as [<-|Hm]; try reflexivity; contradiction.
Qed.

(** C3 fails as stated: the message [m2] is in the archive, yet
    [get_message_context("m2", 2**63, 0)] raises (an [OverflowError] when
    binding the count), so it neither returns a context nor is the failure
    limited to identifiers that resolve to nothing. *)
Lemma get_message_context_raises_on_existing_message :
  foreign_keys_hold db_three /\
  In (msg_at "m2" "111@s.whatsapp.net" 2) (messages db_three) /\
  get_message_context (Open db_three) "m2" (2 ^ 63) 0 = Raise OverflowError.
Proof.
  split; [exact db_three_foreign_keys | split; [simpl; auto | reflexivity]].
Qed.

(** The lookup by identifier decides between the not-found error and the
    binding of the counts. *)
Lemma get_message_context_found (d : db) (message_id : string) (b a : Z)
    (r : msg_row * chat_row) (rs : list (msg_row * chat_row)) :
  filter (fun r => String.eqb (mr_id (fst r)) message_id) (join_messages d) = r :: rs ->
  get_message_context (Open d) message_id b a
  = if int64_ok b && int64_ok a then
      Ok {| message := row_to_message r;
            before := map row_to_message
              (limit_offset b 0 (order_ts_desc
                 (filter (fun r' => String.eqb (mr_chat_jid (fst r')) (mr_chat_jid (fst r))
                                    && (row_ts r' <? mr_timestamp (fst r))) (join_messages d))));
            after := map row_to_message
              (limit_offset a 0 (order_ts_asc
                 (filter (fun r' => String.eqb (mr_chat_jid (fst r')) (mr_chat_jid (fst r))
                                    && (mr_timestamp (fst r) <? row_ts r')) (join_messages d)))) |}
    else Raise OverflowError.
Proof.
  intros Ef. unfold get_message_context, bind_params; simpl. rewrite Ef.
  destruct (int64_ok b), (int64_ok a); reflexivity.
Qed.

(** C3 (amended).  On an archive that opens and whose messages all belong
    to a conversation, [get_message_context(id, b, a)] raises the
    not-found [ValueError] exactly when no message has identifier [id],
    whatever the counts.  For counts that fit SQLite's 64-bit integers it
    returns a context exactly when some message has identifier [id]; when
    such a message exists and a count does not fit, it raises
    [OverflowError]. *)
Theorem get_message_context_not_found_iff (d : db) (message_id : string) (b a : Z) :
  foreign_keys_hold d ->
  (get_message_context (Open d) message_id b a
     = Raise (ValueError ("Message with ID " ++ message_id ++ " not found")) <->
   ~ (exists m, In m (messages d) /\ mr_id m = message_id)) /\
  (int64_ok b = true -> int64_ok a = true ->
   ((exists ctx, get_message_context (Open d) message_id b a = Ok ctx) <->
    (exists m, In m (messages d) /\ mr_id m = message_id))) /\
  ((exists m, In m (messages d) /\ mr_id m = message_id) ->
   int64_ok b = false \/ int64_ok a = false ->
   get_message_context (Open d) message_id b a = Raise OverflowError).
Proof.
  intros Hfk.
  pose proof (lookup_by_id_nonempty d message_id Hfk) as Hne.
  destruct (filter _ (join_messages d)) as [|r rs] eqn:Ef.
  - assert (E : get_message_context (Open d) message_id b a
                = Raise (ValueError ("Message with ID " ++ message_id ++ " not found")))
      by (unfold get_message_context; simpl; rewrite Ef; reflexivity).
    rewrite E. split; [|split].
    + split; [intros _ Hex; exact (Hne Hex eq_refl) | reflexivity].
    + intros _ _. split; [intros (ctx & H); discriminate|].
      intros Hex; exfalso; exact (Hne Hex eq_refl).
    + intros Hex; exfalso; exact (Hne Hex eq_refl).
  - rewrite (get_message_context_found d message_id b a r rs Ef).
    match type of Ef with filter ?f ?l = _ =>
      assert (Hr : In r (filter f l)) by (rewrite Ef; now left) end.
    apply filter_In in Hr as [Hr Hid]. apply String.eqb_eq in Hid.
    apply join_messages_spec in Hr as (Hm & _ & _).
    assert (Hex : exists m, In m (messages d) /\ mr_id m = message_id)
      by (exists (fst r); auto).
    split; [|split].
    + split; [destruct (int64_ok b && int64_ok a); discriminate|].
      intros Hn; exfalso; exact (Hn Hex).
    + intros Hb Ha. rewrite Hb, Ha; simpl.
      split; [intros _; exact Hex | intros _; eexists; reflexivity].
    + intros _ [Hb|Ha]; [rewrite Hb | rewrite Ha, andb_false_r]; reflexivity.
Qed.

Lemma get_message_context_not_found_iff_witness :
  (get_message_context (Open db_three) "m2" 1 (2 ^ 63)
     = Raise (ValueError ("Message with ID " ++ "m2" ++ " not found")) <->
   ~ (exists m, In m (messages db_three) /\ mr_id m = "m2")) /\
  (int64_ok 1 = true -> int64_ok (2 ^ 63) = true ->
   ((exists ctx, get_message_context (Open db_three) "m2" 1 (2 ^ 63) = Ok ctx) <->
    (exists m, In m (messages db_three) /\ mr_id m = "m2"))) /\
  ((exists m, In m (messages db_three) /\ mr_id m = "m2") ->
   int64_ok 1 = false \/ int64_ok (2 ^ 63) = false ->
   get_message_context (Open db_three) "m2" 1 (2 ^ 63) = Raise OverflowError).
Proof.
  apply get_message_context_not_found_iff. exact db_three_foreign_keys.
Defined.

(** ** [list_messages] *)

Lemma int64_ok_intro (z : Z) : - 2 ^ 63 <= z < 2 ^ 63 -> int64_ok z = true.
Proof.
  intros [H1 H2]; unfold int64_ok.
  apply andb_true_intro; split; [apply Z.leb_le | apply Z.ltb_lt]; lia.
Qed.

Lemma message_params_ok dr s c q (limit offset : Z) :
  forallb param_ok (message_params dr s c q limit offset)
  = int64_ok limit && int64_ok offset.
Proof.
  unfold message_params.
  destruct dr as [[lo hi]|], (py_str_arg s), (py_str_arg c), (py_str_arg q);
    simpl; rewrite ?andb_true_r; reflexivity.
Qed.

Lemma firstn_add_split {A} (n m : nat) (l : list A) :
  firstn (n + m) l = (firstn n l ++ firstn m (skipn n l))%list.
Proof.
  revert l; induction n as [|n IH]; intros [|x l]; simpl; auto.
  - rewrite firstn_nil; reflexivity.
  - f_equal; apply IH.
Qed.

(** The matching messages, most recent first. *)
Definition ordered_matches (d : db) (dr : option (Z * Z)) (s c q : option string)
    : list Message :=
  map row_to_message (order_ts_desc (filter (message_where dr s c q) (join_messages d))).

Lemma list_messages_no_context (d : db) dr s c q (limit page : nat) cb ca :
  int64_ok (Z.of_nat limit) = true -> int64_ok (Z.of_nat (page * limit)) = true ->
  list_messages (Open d) dr s c q (Z.of_nat limit) (Z.of_nat page) false cb ca
  = Ok (firstn limit (skipn (page * limit) (ordered_matches d dr s c q))).
Proof.
  intros Hl Ho. unfold list_messages, bind_params; simpl.
  rewrite message_params_ok, Hl, <- Nat2Z.inj_mul, Ho; simpl.
  unfold select_messages, limit_offset, ordered_matches.
  replace (Z.of_nat limit <? 0) with false by (symmetry; apply Z.ltb_ge; lia).
  rewrite !Nat2Z.id, <- firstn_map, <- skipn_map; reflexivity.
Qed.

Lemma ordered_matches_sorted (d : db) dr s c q :
  StronglySorted (fun x y => timestamp y <= timestamp x) (ordered_matches d dr s c q).
Proof.
  apply Sorted_StronglySorted; [intros x y z; lia|].
  apply (Sorted_map row_to_message (not_ahead (fun y x => row_ts x <? row_ts y))).
  - intros x y Hxy; unfold not_ahead in Hxy; rewrite !row_to_message_timestamp.
    apply Z.ltb_ge in Hxy; exact Hxy.
  - apply sort_by_sorted. intros x y Hxy; apply Z.ltb_lt in Hxy; apply Z.ltb_ge; lia.
Qed.

(** C4.  Without context expansion, page [k] of [list_messages] with page
    size [limit] is the window [k * limit, k * limit + limit) of the
    matching messages ordered by timestamp descending (so page 0 holds the
    most recent ones), and pages [k] and [k + 1] together are exactly the
    next [2 * limit] entries from [k * limit]: no overlap, no gap.  The
    offset of page [k + 1] must fit SQLite's 64-bit integers. *)
Theorem list_messages_pages (d : db) (dr : option (Z * Z)) (s c q : option string)
    (limit k : nat) (cb ca : Z) :
  Z.of_nat (S k * limit) < 2 ^ 63 ->
  let ordered := ordered_matches d dr s c q in
  Permutation ordered (map row_to_message (filter (message_where dr s c q) (join_messages d))) /\
  StronglySorted (fun x y => timestamp y <= timestamp x) ordered /\
  list_messages (Open d) dr s c q (Z.of_nat limit) (Z.of_nat k) false cb ca
    = Ok (firstn limit (skipn (k * limit) ordered)) /\
  list_messages (Open d) dr s c q (Z.of_nat limit) (Z.of_nat (S k)) false cb ca
    = Ok (firstn limit (skipn (S k * limit) ordered)) /\
  (firstn limit (skipn (k * limit) ordered) ++ firstn limit (skipn (S k * limit) ordered))%list
    = firstn (2 * limit) (skipn (k * limit) ordered).
Proof.
  intros H ordered.
  assert (Hl : int64_ok (Z.of_nat limit) = true) by (apply int64_ok_intro; nia).
  repeat split.
  - unfold ordered, ordered_matches. apply Permutation_map, sort_by_perm.
  - apply ordered_matches_sorted.
  - apply list_messages_no_context; [exact Hl | apply int64_ok_intro; nia].
  - apply list_messages_no_context; [exact Hl | apply int64_ok_intro; nia].
  - replace (2 * limit)%nat with (limit + limit)%nat by lia.
    rewrite firstn_add_split, skipn_skipn.
    replace (limit + k * limit)%nat with (S k * limit)%nat by lia. reflexivity.
Qed.

Lemma list_messages_pages_witness :
  let ordered := ordered_matches db_three None None None None in
  Permutation ordered (map row_to_message (filter (message_where None None None None)
                                                  (join_messages db_three))) /\
  StronglySorted (fun x y => timestamp y <= timestamp x) ordered /\
  list_messages (Open db_three) None None None None (Z.of_nat 1) (Z.of_nat 0) false 1 1
    = Ok (firstn 1 (skipn (0 * 1) ordered)) /\
  list_messages (Open db_three) None None None None (Z.of_nat 1) (Z.of_nat 1) false 1 1
    = Ok (firstn 1 (skipn (1 * 1) ordered)) /\
  (firstn 1 (skipn (0 * 1) ordered) ++ firstn 1 (skipn (1 * 1) ordered))%list
    = firstn (2 * 1) (skipn (0 * 1) ordered).
Proof.
  apply (list_messages_pages db_three None None None None 1 0 1 1). simpl; lia.
Defined.

(** ** Context expansion *)

Lemma get_message_context_open_no_sqlite (d : db) i b a (e : string) :
  get_message_context (Open d) i b a <> Raise (SqliteError e).
Proof.
  unfold get_message_context, bind_params; simpl.
  destruct (filter _ _); [discriminate|]. simpl.
  destruct (int64_ok b); simpl; [|discriminate].
  destruct (int64_ok a); simpl; discriminate.
Qed.

Lemma expand_context_open_no_sqlite (d : db) ts cb ca (e : string) :
  expand_context (Open d) ts cb ca <> Raise (SqliteError e).
Proof.
  induction ts as [|t ts IH]; simpl; [discriminate|].
  destruct (get_message_context (Open d) (id t) cb ca) as [ctx|e'] eqn:E; simpl.
  - destruct (expand_context (Open d) ts cb ca); simpl; [discriminate | exact IH].
  - intros H; inversion H; subst. exact (get_message_context_open_no_sqlite d _ _ _ _ E).
Qed.

Lemma expand_context_ok (st : store) ts cb ca (out : list Message) :
  expand_context st ts cb ca = Ok out ->
  exists ctxs, Forall2 (fun t ctx => get_message_context st (id t) cb ca = Ok ctx) ts ctxs /\
    out = flat_map (fun ctx => (before ctx ++ message ctx :: after ctx)%list) ctxs.
Proof.
  revert out; induction ts as [|t ts IH]; intros out H; simpl in H.
  - inversion H; subst. exists []; split; constructor.
  - destruct (get_message_context st (id t) cb ca) as [ctx|e] eqn:E; simpl in H;
      [|discriminate].
    destruct (expand_context st ts cb ca) as [tl|e] eqn:E'; simpl in H; [|discriminate].
    inversion H; subst. destruct (IH tl eq_refl) as (ctxs & Hf & ->).
    exists (ctx :: ctxs); split; [constructor; assumption|].
    simpl. rewrite <- app_assoc. reflexivity.
Qed.

Lemma list_messages_open_inv (d : db) dr s c q (limit page : Z) incl cb ca out :
  list_messages (Open d) dr s c q limit page incl cb ca = Ok out ->
  forallb param_ok (message_params dr s c q limit (page * limit)) = true /\
  let result := select_messages d dr s c q limit (page * limit) in
  (if incl && negb (match result with [] => true | _ => false end)
   then expand_context (Open d) result cb ca else Ok result) = Ok out.
Proof.
  unfold list_messages, bind_params; simpl.
  destruct (forallb param_ok _); simpl; [|discriminate].
  intros H; split; [reflexivity|]. cbv zeta.
  destruct incl; [|exact H].
  destruct (select_messages d dr s c q limit (page * limit)) as [|t ts]; [exact H|].
  destruct (expand_context (Open d) (t :: ts) cb ca) as [o|[e| |e]] eqn:E;
    simpl in H |- *; try exact H.
  exfalso; exact (expand_context_open_no_sqlite d _ _ _ _ E).
Qed.

(** C5 fails as stated: conversations [a@…] and [b@…] both hold a message
    [m1].  Listing conversation [b@…] selects its [m1] as the only target,
    but the expanded listing holds [a@…]'s [m1] in its place, because the
    context is looked up by the identifier alone. *)
Lemma list_messages_context_replaces_target :
  exists target out,
    list_messages (Open db_collide) None None (Some "b@s.whatsapp.net") None 20 0 false 1 1
      = Ok [target] /\
    list_messages (Open db_collide) None None (Some "b@s.whatsapp.net") None 20 0 true 1 1
      = Ok out /\
    chat_jid target = "b@s.whatsapp.net" /\
    map chat_jid out = ["a@s.whatsapp.net"] /\ ~ In target out.
Proof.
  do 2 eexists; split; [reflexivity|]. split; [reflexivity|].
  split; [reflexivity|]. split; [reflexivity|].
  simpl. intros [H|[]]. discriminate.
Qed.

(** C5 (amended).  With context expansion, [list_messages] selects its
    targets exactly as without it (at most [limit] of them, the window of
    the matching messages ordered by timestamp descending); the output is
    then, target after target, [before ++ [m] ++ after] for the context
    [get_message_context(target.id, context_before, context_after)], whose
    message [m] is resolved from the identifier alone: it is the target
    itself when no other archive message carries that identifier. *)
Theorem list_messages_context_expansion (d : db) (dr : option (Z * Z))
    (s c q : option string) (limit page : nat) (cb ca : Z) (targets : list Message) :
  list_messages (Open d) dr s c q (Z.of_nat limit) (Z.of_nat page) false cb ca = Ok targets ->
  (length targets <= limit)%nat /\
  (forall out,
     list_messages (Open d) dr s c q (Z.of_nat limit) (Z.of_nat page) true cb ca = Ok out ->
     exists ctxs,
       Forall2 (fun t ctx => get_message_context (Open d) (id t) cb ca = Ok ctx) targets ctxs /\
       out = flat_map (fun ctx => (before ctx ++ message ctx :: after ctx)%list) ctxs) /\
  (forall t ctx, In t targets ->
     (forall r, In r (join_messages d) -> mr_id (fst r) = id t -> row_to_message r = t) ->
     get_message_context (Open d) (id t) cb ca = Ok ctx -> message ctx = t).
Proof.
  intros H. apply list_messages_open_inv in H as [_ H]. cbv zeta in H.
  simpl in H. injection H as <-.
  repeat split.
  - unfold select_messages. rewrite length_map.
    pose proof (limit_offset_length (Z.of_nat limit) (Z.of_nat page * Z.of_nat limit)
      (order_ts_desc (filter (message_where dr s c q) (join_messages d)))) as L.
    rewrite Nat2Z.id in L. apply L; lia.
  - intros out Hout. apply list_messages_open_inv in Hout as [_ Hout]. cbv zeta in Hout.
    simpl in Hout.
    destruct (select_messages d dr s c q (Z.of_nat limit) (Z.of_nat page * Z.of_nat limit))
      as [|t ts].
    + inversion Hout; subst. exists []; split; constructor.
    + apply expand_context_ok; exact Hout.
  - intros t ctx _ Huniq Hctx.
    apply get_message_context_ok_inv in Hctx as (d' & r & Hd & Hr & Hid & _ & _ & Hm & _).
    inversion Hd; subst d'. rewrite Hm. apply Huniq; assumption.
Qed.

Lemma list_messages_context_expansion_witness :
  match list_messages (Open db_three) None None None None (Z.of_nat 1) (Z.of_nat 0) false 1 1 with
  | Ok targets =>
      (length targets <= 1)%nat /\
      (forall out,
         list_messages (Open db_three) None None None None (Z.of_nat 1) (Z.of_nat 0) true 1 1
           = Ok out ->
         exists ctxs,
           Forall2 (fun t ctx => get_message_context (Open db_three) (id t) 1 1 = Ok ctx)
                   targets ctxs /\
           out = flat_map (fun ctx => (before ctx ++ message ctx :: after ctx)%list) ctxs) /\
      (forall t ctx, In t targets ->
         (forall r, In r (join_messages db_three) -> mr_id (fst r) = id t ->
                    row_to_message r = t) ->
         get_message_context (Open db_three) (id t) 1 1 = Ok ctx -> message ctx = t)
  | Raise _ => False
  end.
Proof.
  exact (list_messages_context_expansion db_three None None None None 1 0 1 1 _ eq_refl).
Defined.

(** ** Error policy of the listing operations *)

Lemma get_message_context_resolves (d : db) (r : msg_row * chat_row) (b a : Z) :
  In r (join_messages d) -> int64_ok b = true -> int64_ok a = true ->
  exists ctx, get_message_context (Open d) (mr_id (fst r)) b a = Ok ctx.
Proof.
  intros Hr Hb Ha. unfold get_message_context, bind_params; simpl.
  destruct (filter _ (join_messages d)) as [|r' rs] eqn:Ef.
  - exfalso.
    match type of Ef with filter ?f ?l = _ =>
      assert (Hin : In r (filter f l)) by (apply filter_In; split;
        [exact Hr | apply String.eqb_eq; reflexivity]) end.
    rewrite Ef in Hin; exact Hin.
  - simpl; rewrite Hb, Ha; simpl. eexists; reflexivity.
Qed.

Lemma expand_context_selected (d : db) (ts : list Message) (cb ca : Z) :
  (forall t, In t ts -> exists r, In r (join_messages d) /\ mr_id (fst r) = id t) ->
  int64_ok cb = true -> int64_ok ca = true ->
  exists out, expand_context (Open d) ts cb ca = Ok out.
Proof.
  intros Hts Hb Ha. induction ts as [|t ts IH]; simpl; [eexists; reflexivity|].
  destruct (Hts t (or_introl eq_refl)) as (r & Hr & Hid).
  destruct (get_message_context_resolves d r cb ca Hr Hb Ha) as [ctx Hctx].
  rewrite Hid in Hctx. rewrite Hctx; simpl.
  destruct IH as [tl Htl]; [intros t' Ht'; apply Hts; now right|].
  rewrite Htl; simpl. eexists; reflexivity.
Qed.

Lemma select_messages_from_join (d : db) dr s c q limit offset (t : Message) :
  In t (select_messages d dr s c q limit offset) ->
  exists r, In r (join_messages d) /\ mr_id (fst r) = id t.
Proof.
  unfold select_messages. intros H. apply in_map_iff in H as (r & <- & H).
  apply limit_offset_In in H. unfold order_ts_desc in H. apply sort_by_In in H.
  apply filter_In in H as [H _]. exists r; split; [exact H | symmetry; apply row_to_message_id].
Qed.

Lemma get_message_context_overflow (d : db) (r : msg_row * chat_row) (b a : Z) :
  In r (join_messages d) -> int64_ok b && int64_ok a = false ->
  get_message_context (Open d) (mr_id (fst r)) b a = Raise OverflowError.
Proof.
  intros Hr Hba.
  destruct (filter (fun r' => String.eqb (mr_id (fst r')) (mr_id (fst r))) (join_messages d))
    as [|r' rs] eqn:Ef.
  - exfalso.
    assert (Hin : In r (filter (fun r' => String.eqb (mr_id (fst r')) (mr_id (fst r)))
                               (join_messages d)))
      by (apply filter_In; split; [exact Hr | apply String.eqb_eq; reflexivity]).
    rewrite Ef in Hin; exact Hin.
  - rewrite (get_message_context_found d (mr_id (fst r)) b a r' rs Ef), Hba; reflexivity.
Qed.

Lemma expand_context_overflow (d : db) (ts : list Message) (cb ca : Z) :
  ts <> [] ->
  (forall t, In t ts -> exists r, In r (join_messages d) /\ mr_id (fst r) = id t) ->
  int64_ok cb && int64_ok ca = false ->
  expand_context (Open d) ts cb ca = Raise OverflowError.
Proof.
  intros Hne Hts Hba. destruct ts as [|t ts]; [contradiction|]. simpl.
  destruct (Hts t (or_introl eq_refl)) as (r & Hr & Hid).
  rewrite <- Hid, (get_message_context_overflow d r cb ca Hr Hba). reflexivity.
Qed.

(** C6 fails as stated: [list_messages(limit=2**63)] on a readable archive
    raises [OverflowError] from the parameter binding; only
    [sqlite3.Error] is turned into an empty result. *)
Lemma list_messages_raises_overflow :
  list_messages (Open db_three) None None None None (2 ^ 63) 0 false 1 1 = Raise OverflowError.
Proof. reflexivity. Qed.

(** C6 (amended).  [search_contacts] never raises.  When the archive
    cannot be opened, [list_messages], [list_chats] and [search_contacts]
    return an empty sequence, and [list_chats(include_last_message=False)]
    always returns an empty sequence, its query failing with an
    [sqlite3.Error].  On an archive that opens, [list_chats] with the join
    returns a sequence exactly when [limit] and the offset [page * limit]
    fit SQLite's signed 64-bit integers, and raises the uncaught
    [OverflowError] otherwise; [list_messages] returns a sequence exactly
    when [limit] and [page * limit] fit and, if the context is expanded
    ([include_context] and a nonempty selection), [context_before] and
    [context_after] fit too, and raises [OverflowError] otherwise. *)
Theorem listing_operations_degrade_to_empty (st : store) :
  (forall q, exists cs, search_contacts st q = Ok cs) /\
  (forall q limit page sort_by_arg, list_chats st q limit page false sort_by_arg = Ok []) /\
  (st = Unavailable ->
     (forall dr s c q limit page incl cb ca,
        list_messages st dr s c q limit page incl cb ca = Ok []) /\
     (forall q limit page incl sort_by_arg,
        list_chats st q limit page incl sort_by_arg = Ok []) /\
     (forall q, search_contacts st q = Ok [])) /\
  (forall d, st = Open d ->
     (forall q limit page sort_by_arg,
        (int64_ok limit && int64_ok (page * limit) = true ->
         exists cs, list_chats st q limit page true sort_by_arg = Ok cs) /\
        (int64_ok limit && int64_ok (page * limit) = false ->
         list_chats st q limit page true sort_by_arg = Raise OverflowError)) /\
     (forall dr s c q limit page incl cb ca,
        let expands := incl && negb (match select_messages d dr s c q limit (page * limit)
                                     with [] => true | _ => false end) in
        (int64_ok limit && int64_ok (page * limit)
         && (negb expands || int64_ok cb && int64_ok ca) = true ->
         exists msgs, list_messages st dr s c q limit page incl cb ca = Ok msgs) /\
        (int64_ok limit && int64_ok (page * limit)
         && (negb expands || int64_ok cb && int64_ok ca) = false ->
         list_messages st dr s c q limit page incl cb ca = Raise OverflowError))).
Proof.
  split; [|split; [|split]].
  - intros q; destruct st; eexists; reflexivity.
  - intros q limit page sort_by_arg; destruct st; reflexivity.
  - intros ->; repeat split.
  - intros d ->; split.
    + intros q limit page sort_by_arg.
      unfold list_chats, bind_params; simpl.
      destruct (py_str_arg q); simpl;
        destruct (int64_ok limit), (int64_ok (page * limit)); simpl;
        (split; intros H; [first [discriminate H | eexists; reflexivity] | first [discriminate H | reflexivity]]).
    + intros dr s c q limit page incl cb ca expands.
      unfold list_messages, bind_params; simpl.
      rewrite message_params_ok.
      destruct (int64_ok limit && int64_ok (page * limit)); simpl;
        [|split; intros H; [discriminate H | reflexivity]].
      subst expands.
      destruct (incl && _) eqn:Ei; simpl.
      * apply andb_prop in Ei as [_ Ene].
        assert (Hsel : forall t, In t (select_messages d dr s c q limit (page * limit)) ->
                  exists r, In r (join_messages d) /\ mr_id (fst r) = id t)
          by (intros t Ht; eapply select_messages_from_join; exact Ht).
        destruct (int64_ok cb) eqn:Hb, (int64_ok ca) eqn:Ha; simpl;
          (split; intros H; try discriminate H).
        -- destruct (expand_context_selected d _ cb ca Hsel Hb Ha) as [out Hout].
           rewrite Hout; eexists; reflexivity.
        -- rewrite (expand_context_overflow d _ cb ca) by
             (try (intros E; rewrite E in Ene; discriminate Ene); try exact Hsel;
              rewrite Hb, Ha; reflexivity).
           reflexivity.
        -- rewrite (expand_context_overflow d _ cb ca) by
             (try (intros E; rewrite E in Ene; discriminate Ene); try exact Hsel;
              rewrite Hb, Ha; reflexivity).
           reflexivity.
        -- rewrite (expand_context_overflow d _ cb ca) by
             (try (intros E; rewrite E in Ene; discriminate Ene); try exact Hsel;
              rewrite Hb, Ha; reflexivity).
           reflexivity.
      * split; intros H; [eexists; reflexivity | discriminate H].
Qed.

(** ** [list_chats] ordered by name *)

Lemma nat_of_ascii_inj (a b : ascii) : nat_of_ascii a = nat_of_ascii b -> a = b.
Proof.
  intros H. rewrite <- (ascii_nat_embedding a), <- (ascii_nat_embedding b), H.
  reflexivity.
Qed.

Lemma str_ltb_asym (s t : string) : str_ltb s t = true -> str_ltb t s = false.
Proof.
  revert t; induction s as [|a s IH]; intros [|b t]; simpl; try discriminate; auto.
  destruct (Nat.ltb_spec (nat_of_ascii a) (nat_of_ascii b));
    destruct (Nat.ltb_spec (nat_of_ascii b) (nat_of_ascii a)); try lia; auto.
Qed.

Lemma str_ltb_trans (s t u : string) :
  str_ltb s t = true -> str_ltb t u = true -> str_ltb s u = true.
Proof.
  revert t u; induction s as [|a s IH]; intros [|b t] [|c u]; simpl;
    try discriminate; auto.
  destruct (Nat.ltb_spec (nat_of_ascii a) (nat_of_ascii b));
    destruct (Nat.ltb_spec (nat_of_ascii b) (nat_of_ascii a));
    destruct (Nat.ltb_spec (nat_of_ascii b) (nat_of_ascii c));
    destruct (Nat.ltb_spec (nat_of_ascii c) (nat_of_ascii b));
    destruct (Nat.ltb_spec (nat_of_ascii a) (nat_of_ascii c));
    destruct (Nat.ltb_spec (nat_of_ascii c) (nat_of_ascii a));
    intros; try lia; try discriminate; eauto.
Qed.

Lemma str_ltb_total (s t : string) :
  str_ltb s t = false -> str_ltb t s = false -> s = t.
Proof.
  revert t; induction s as [|a s IH]; intros [|b t]; simpl; try discriminate; auto.
  destruct (Nat.ltb_spec (nat_of_ascii a) (nat_of_ascii b));
    destruct (Nat.ltb_spec (nat_of_ascii b) (nat_of_ascii a));
    intros; try lia; try discriminate.
  f_equal; [apply nat_of_ascii_inj; lia | auto].
Qed.

(** [y] does not sort strictly before [x] by name. *)
Definition name_not_before (x y : option string) : Prop :=
  opt_ltb str_ltb y x = false.

Lemma name_not_before_trans (x y z : option string) :
  name_not_before x y -> name_not_before y z -> name_not_before x z.
Proof.
  unfold name_not_before.
  destruct x as [x|], y as [y|], z as [z|]; simpl; try discriminate; auto.
  intros Hyx Hzy. destruct (str_ltb z x) eqn:Hzx; [|reflexivity].
  destruct (str_ltb x y) eqn:Hxy.
  - rewrite (str_ltb_trans z x y Hzx Hxy) in Hzy; discriminate.
  - rewrite (str_ltb_total x y Hxy Hyx) in Hzx. rewrite Hzx in Hzy; discriminate.
Qed.

(** C7 fails as stated: [list_chats(sort_by="name")] on conversations
    named "Bob", "alice" and unnamed returns the unnamed one, then "Bob",
    then "alice": [ORDER BY chats.name] compares bytes, so uppercase sorts
    before lowercase. *)
Lemma list_chats_name_order_case_sensitive :
  exists cs, list_chats (Open db_names) None 20 0 true "name" = Ok cs /\
             map name cs = [None; Some "Bob"; Some "alice"].
Proof. eexists; split; reflexivity. Qed.

(** C7 (amended).  With any [sort_by] other than "last_active" (such as
    "name"), [list_chats] returns conversations in ascending byte-wise
    (case-sensitive) order of display name, unnamed conversations first. *)
Theorem list_chats_sorted_by_name (st : store) (q : option string) (limit page : Z)
    (incl : bool) (sort_by_arg : string) (cs : list Chat) :
  sort_by_arg <> "last_active" ->
  list_chats st q limit page incl sort_by_arg = Ok cs ->
  StronglySorted (fun x y => name_not_before (name x) (name y)) cs.
Proof.
  intros Hs H. apply Sorted_StronglySorted.
  { intros x y z; apply name_not_before_trans. }
  destruct st as [d|]; [|inversion H; constructor].
  unfold list_chats, bind_params in H; simpl in H.
  destruct incl; simpl in H; [|inversion H; constructor].
  destruct (forallb param_ok _); simpl in H; [|discriminate].
  injection H as <-.
  apply (Sorted_map row_to_chat
           (not_ahead (fun y x => opt_ltb str_ltb (cr_name (fst y)) (cr_name (fst x))))).
  { intros [x ox] [y oy]; unfold not_ahead, name_not_before; simpl; auto. }
  apply limit_offset_sorted. unfold order_chats.
  apply String.eqb_neq in Hs; rewrite Hs.
  apply sort_by_sorted. intros [x ox] [y oy]; simpl.
  destruct (cr_name x) as [a|], (cr_name y) as [b|]; simpl; try discriminate; auto.
  apply str_ltb_asym.
Qed.

Lemma list_chats_sorted_by_name_witness :
  StronglySorted (fun x y => name_not_before (name x) (name y))
    [{| jid := "3@s.whatsapp.net"; name := None; last_message_time := None;
        last_message := None; last_sender := None; last_is_from_me := None |};
     {| jid := "1@s.whatsapp.net"; name := Some "Bob"; last_message_time := None;
        last_message := None; last_sender := None; last_is_from_me := None |};
     {| jid := "2@s.whatsapp.net"; name := Some "alice"; last_message_time := None;
        last_message := None; last_sender := None; last_is_from_me := None |}].
Proof.
  apply (list_chats_sorted_by_name (Open db_names) None 20 0 true "name");
    [discriminate | reflexivity].
Defined.

(** ** [search_contacts] *)

(** C8 (the defect).  The query is spliced unescaped into a [LIKE]
    pattern, so [_] (and [%]) act as wildcards: searching for "_" returns
    the contact "Bob" / [15551234567@s.whatsapp.net], although "_" is a
    substring of neither its name nor its identifier. *)
Theorem search_contacts_underscore_wildcard :
  search_contacts (Open db_bob) "_"
    = Ok [{| phone_number := "15551234567"; contact_name := Some "Bob";
             contact_jid := "15551234567@s.whatsapp.net" |}] /\
  spec_substring_ci "_" "Bob" = false /\
  spec_substring_ci "_" "15551234567@s.whatsapp.net" = false.
Proof. repeat split; reflexivity. Qed.

Lemma like_percent (s : string) : like "%" s = true.
Proof. induction s as [|a s IH]; [reflexivity | exact IH]. Qed.

Lemma like_percent_percent (s : string) : like "%%" s = true.
Proof. destruct s; simpl; rewrite ?like_percent; reflexivity. Qed.

Lemma contact_where_empty_query (c : chat_row) :
  contact_where ("%" ++ "" ++ "%") c = negb (group_pattern (cr_jid c)).
Proof.
  unfold contact_where; simpl LOWER. rewrite like_percent_percent, orb_true_r.
  reflexivity.
Qed.

Lemma pair_eqb_eq (x y : string * option string) : pair_eqb x y = true <-> x = y.
Proof.
  destruct x as [a oa], y as [b ob]; unfold pair_eqb; simpl.
  split.
  - intros H. apply andb_prop in H as [Hab Ho]. apply String.eqb_eq in Hab; subst b.
    destruct oa as [u|], ob as [v|]; try discriminate;
      [apply String.eqb_eq in Ho; subst|]; reflexivity.
  - intros H; inversion H; subst. rewrite String.eqb_refl; simpl.
    destruct ob; [apply String.eqb_refl | reflexivity].
Qed.

Lemma distinct_In (l : list (string * option string)) (x : string * option string) :
  In x l -> In x (distinct l).
Proof.
  induction l as [|y ys IH]; simpl; [tauto|].
  intros [<-|Hx]; [now left|].
  destruct (pair_eqb y x) eqn:E.
  - apply pair_eqb_eq in E; subst; now left.
  - right. apply filter_In; split; [now apply IH | rewrite E; reflexivity].
Qed.

Lemma distinct_length (l : list (string * option string)) :
  (length (distinct l) <= length l)%nat.
Proof.
  induction l as [|y ys IH]; simpl; [lia|].
  pose proof (filter_length_le (fun z => negb (pair_eqb y z)) (distinct ys)). lia.
Qed.

(** C10.  With the empty query the search pattern is "%%", which every
    identifier matches: [search_contacts("")] returns [min 50 n] contacts
    for the [n] distinct non-group conversations, and every non-group
    conversation is among them when there are at most 50. *)
Theorem search_contacts_empty_query (d : db) :
  let rows := distinct (map (fun c => (cr_jid c, cr_name c))
                            (filter (fun c => negb (group_pattern (cr_jid c))) (chats d))) in
  exists cs, search_contacts (Open d) "" = Ok cs /\
    length cs = Nat.min 50 (length rows) /\
    (forall c, In c (chats d) -> group_pattern (cr_jid c) = false ->
       (length (filter (fun c => negb (group_pattern (cr_jid c))) (chats d)) <= 50)%nat ->
       In (row_to_contact (cr_jid c, cr_name c)) cs).
Proof.
  intros rows.
  assert (Hf : filter (contact_where ("%" ++ "" ++ "%")) (chats d)
               = filter (fun c => negb (group_pattern (cr_jid c))) (chats d)).
  { apply filter_ext; intros c; apply contact_where_empty_query. }
  eexists; split; [unfold search_contacts; simpl bind_params; simpl; reflexivity|].
  change ("%" ++ "" ++ "%") with "%%" in Hf. rewrite Hf. fold rows.
  unfold limit_offset, order_name_jid; simpl skipn.
  change (50 <? 0) with false; cbv iota. change (Z.to_nat 50) with 50%nat.
  split.
  - rewrite length_map, length_firstn, (Permutation_length (sort_by_perm _ rows)).
    reflexivity.
  - intros c Hc Hg Hlen. apply in_map. rewrite firstn_all2.
    + apply sort_by_In. apply distinct_In.
      apply (in_map (fun c0 => (cr_jid c0, cr_name c0))).
      apply filter_In; split; [exact Hc | rewrite Hg; reflexivity].
    + rewrite (Permutation_length (sort_by_perm _ rows)).
      unfold rows. pose proof (distinct_length (map (fun c => (cr_jid c, cr_name c))
        (filter (fun c => negb (group_pattern (cr_jid c))) (chats d)))) as L.
      rewrite length_map in L. simpl. lia.
Qed.

(** ** [send_message] *)

(** C9.  [send_message] always returns a [(success, status)] pair (its
    last handler catches every [Exception]): an empty recipient fails
    without any request; otherwise exactly one POST of
    [{recipient, message}] to [/send] is issued, and an HTTP 200 JSON
    object gives its [success]/[message] fields (with the defaults of
    [dict.get]), any other status fails with the raw body text in the
    status message, and a transport failure fails with its error text. *)
Theorem send_message_outcomes (post : string -> payload -> http_outcome)
    (recipient message_text : string) :
  let url := (WHATSAPP_API_BASE_URL ++ "/send")%string in
  let pl : payload := [("recipient", JStr recipient); ("message", JStr message_text)] in
  (recipient = "" ->
     send_message post recipient message_text
       = ((JBool false, JStr "Recipient must be provided"), [])) /\
  (recipient <> "" ->
     snd (send_message post recipient message_text) = [(url, pl)] /\
     (forall text kvs, post url pl = Response 200 text (JsonOk (JObj kvs)) ->
        fst (send_message post recipient message_text)
          = (dict_get kvs "success" (JBool false),
             dict_get kvs "message" (JStr "Unknown response"))) /\
     (forall code text body, code <> 200 -> post url pl = Response code text body ->
        fst (send_message post recipient message_text)
          = (JBool false, JStr ("Error: HTTP " ++ py_str_int code ++ " - " ++ text))) /\
     (forall e, post url pl = TransportError e ->
        fst (send_message post recipient message_text)
          = (JBool false, JStr ("Request error: " ++ e)))).
Proof.
  intros url pl. split.
  - intros ->; reflexivity.
  - intros Hr. apply String.eqb_neq in Hr. unfold send_message. rewrite Hr.
    fold url pl. repeat split.
    + intros text kvs ->; reflexivity.
    + intros code text body Hc ->. apply Z.eqb_neq in Hc. simpl. rewrite Hc. reflexivity.
    + intros e ->; reflexivity.
Qed.

(** The scenario of the specification: a bridge answering HTTP 500. *)
Example send_message_http_500 :
  fst (send_message (fun _ _ => Response 500 "internal error" (JsonError "Expecting value"))
         "15551234567" "hi")
  = (JBool false, JStr "Error: HTTP 500 - internal error").
Proof. reflexivity. Qed.

(** ** LIKE patterns and substrings *)

Lemma like_pct_cons (p s : string) :
  like (String "%" p) s
  = like p s || match s with EmptyString => false | String _ s' => like (String "%" p) s' end.
Proof. destruct s; reflexivity. Qed.

Lemma like_other_cons (c e : ascii) (p s : string) :
  Ascii.eqb c "%"%char = false ->
  like (String c p) (String e s) = (Ascii.eqb c "_"%char || Ascii.eqb (lower c) (lower e)) && like p s.
Proof. intros H. cbn [like]. rewrite H. reflexivity. Qed.

Lemma like_pct_app (p a s : string) : like p s = true -> like (String "%" p) (a ++ s) = true.
Proof.
  intros H. induction a as [|c a IH].
  - simpl (EmptyString ++ s). rewrite like_pct_cons, H. reflexivity.
  - change (String c a ++ s) with (String c (a ++ s)).
    rewrite like_pct_cons, IH, orb_true_r. reflexivity.
Qed.

Lemma like_ci_app (x u p t : string) :
  LOWER x = LOWER u -> like p t = true -> like (x ++ p) (u ++ t) = true.
Proof.
  revert u; induction x as [|c x IH]; intros [|e u] Hl Hp; simpl in Hl; try discriminate.
  - exact Hp.
  - injection Hl as Hc Hxu.
    change (String c x ++ p) with (String c (x ++ p)).
    change (String e u ++ t) with (String e (u ++ t)).
    destruct (Ascii.eqb c "%"%char) eqn:Ec.
    + apply Ascii.eqb_eq in Ec; subst c.
      rewrite like_pct_cons, (like_pct_cons (x ++ p) (u ++ t)), (IH u Hxu Hp).
      rewrite !orb_true_r. reflexivity.
    + rewrite (like_other_cons _ _ _ _ Ec), Hc, Ascii.eqb_refl, orb_true_r, (IH u Hxu Hp).
      reflexivity.
Qed.

Lemma prefix_app (x y : string) : String.prefix x y = true -> exists t, y = x ++ t.
Proof.
  revert y; induction x as [|c x IH]; intros [|e y] H; simpl in H; try discriminate.
  - exists EmptyString; reflexivity.
  - exists (String e y); reflexivity.
  - destruct (ascii_dec c e); [subst|discriminate].
    destruct (IH y H) as [t ->]. exists t; reflexivity.
Qed.

Lemma occurs_split (x y : string) : occurs x y = true -> exists a t, y = a ++ x ++ t.
Proof.
  induction y as [|e y IH]; intros H.
  - destruct x; simpl in H; [|discriminate]. exists EmptyString, EmptyString; reflexivity.
  - change (String.prefix x (String e y) || occurs x y = true) in H.
    apply orb_prop in H as [H|H].
    + apply prefix_app in H as [t Ht]. exists EmptyString, t; exact Ht.
    + destruct (IH H) as (a & t & ->). exists (String e a), t; reflexivity.
Qed.

Lemma LOWER_app (s t : string) : LOWER (s ++ t) = LOWER s ++ LOWER t.
Proof. induction s as [|c s IH]; simpl; [reflexivity | now rewrite IH]. Qed.

Lemma LOWER_app_inv (s a b : string) :
  LOWER s = a ++ b -> exists s1 s2, s = s1 ++ s2 /\ LOWER s1 = a /\ LOWER s2 = b.
Proof.
  revert s; induction a as [|c a IH]; intros s H.
  - exists EmptyString, s; auto.
  - destruct s as [|e s]; simpl in H; [discriminate|]. injection H as Hc H.
    destruct (IH s H) as (s1 & s2 & -> & H1 & H2).
    exists (String e s1), s2; simpl; subst; auto.
Qed.

(** [s LIKE '%q%'] holds whenever [q] occurs in [s] ignoring ASCII case,
    whatever characters [q] holds. *)
Lemma like_contains (q s : string) :
  spec_substring_ci q s = true -> like ("%" ++ q ++ "%") s = true.
Proof.
  unfold spec_substring_ci. intros H. apply occurs_split in H as (a & t & H).
  apply LOWER_app_inv in H as (s1 & s2 & -> & _ & H).
  apply LOWER_app_inv in H as (u & t' & -> & Hu & _).
  change ("%" ++ q ++ "%") with (String "%" (q ++ "%")).
  apply like_pct_app. apply like_ci_app; [now rewrite Hu | apply like_percent].
Qed.

Lemma like_LOWER_contains (q s : string) :
  spec_substring_ci q s = true -> like (LOWER ("%" ++ q ++ "%")) (LOWER s) = true.
Proof.
  unfold spec_substring_ci. intros H. apply occurs_split in H as (a & t & ->).
  rewrite LOWER_app, LOWER_app. change (LOWER "%") with "%".
  change ("%" ++ LOWER q ++ "%") with (String "%" (LOWER q ++ "%")).
  apply like_pct_app. apply like_ci_app; [reflexivity | apply like_percent].
Qed.

Lemma StronglySorted_app_rel {A} (R : A -> A -> Prop) (l1 l2 : list A) (x y : A) :
  StronglySorted R (l1 ++ l2) -> In x l1 -> In y l2 -> R x y.
Proof.
  induction l1 as [|z l1 IH]; simpl; [tauto|].
  intros Hs [<-|Hx] Hy; inversion Hs as [|? ? Hs' Hall]; subst.
  - rewrite Forall_forall in Hall. apply Hall, in_or_app; now right.
  - now apply IH.
Qed.

(** An element of a sorted list is either among its first [n] entries,
    or there are [n] of them and all come before it. *)
Lemma firstn_top {A} (R : A -> A -> Prop) (n : nat) (l : list A) (x : A) :
  StronglySorted R l -> In x l ->
  In x (firstn n l) \/ (length (firstn n l) = n /\ forall y, In y (firstn n l) -> R y x).
Proof.
  intros Hs Hx. rewrite <- (firstn_skipn n l) in Hx, Hs.
  apply in_app_or in Hx as [Hx|Hx]; [now left|right]. split.
  - rewrite length_firstn. apply Nat.min_l.
    destruct (Nat.le_gt_cases n (length l)) as [|Hlt]; [assumption|].
    rewrite skipn_all2 in Hx; [destruct Hx | lia].
  - intros y Hy. exact (StronglySorted_app_rel R _ _ y x Hs Hy Hx).
Qed.

Lemma sorted_strongly {A} (before_ : A -> A -> bool) (R : A -> A -> Prop) (l : list A) :
  (forall x y, before_ x y = true -> before_ y x = false) ->
  (forall x y, before_ y x = false -> R x y) ->
  (forall x y z, R x y -> R y z -> R x z) ->
  StronglySorted R (sort_by before_ l).
Proof.
  intros Ha Hr Ht. apply Sorted_StronglySorted; [exact Ht|].
  rewrite <- (map_id (sort_by before_ l)).
  apply (Sorted_map (fun x => x) (not_ahead before_)); [exact Hr|].
  apply sort_by_sorted, Ha.
Qed.

Lemma order_ts_desc_sorted (l : list (msg_row * chat_row)) :
  StronglySorted (fun x y => row_ts y <= row_ts x) (order_ts_desc l).
Proof.
  apply sorted_strongly.
  - intros x y H; apply Z.ltb_lt in H; apply Z.ltb_ge; lia.
  - intros x y H; apply Z.ltb_ge in H; exact H.
  - intros x y z; lia.
Qed.

Lemma order_ts_asc_sorted (l : list (msg_row * chat_row)) :
  StronglySorted (fun x y => row_ts x <= row_ts y) (order_ts_asc l).
Proof.
  apply sorted_strongly.
  - intros x y H; apply Z.ltb_lt in H; apply Z.ltb_ge; lia.
  - intros x y H; apply Z.ltb_ge in H; exact H.
  - intros x y z; lia.
Qed.

Lemma opt_ltb_Z_not_trans (x y z : option Z) :
  opt_ltb Z.ltb x y = false -> opt_ltb Z.ltb y z = false -> opt_ltb Z.ltb x z = false.
Proof.
  destruct x as [x|], y as [y|], z as [z|]; simpl; try discriminate; auto.
  rewrite !Z.ltb_ge; lia.
Qed.

Lemma opt_ltb_Z_asym (x y : option Z) :
  opt_ltb Z.ltb x y = true -> opt_ltb Z.ltb y x = false.
Proof.
  destruct x as [x|], y as [y|]; simpl; try discriminate; auto.
  rewrite Z.ltb_lt, Z.ltb_ge; lia.
Qed.

Lemma limit_offset_firstn {A} (lim : Z) (l : list A) :
  0 <= lim -> limit_offset lim 0 l = firstn (Z.to_nat lim) l.
Proof.
  intros H; unfold limit_offset. destruct (Z.ltb_spec lim 0); [lia|reflexivity].
Qed.

Lemma NoDup_limit_offset {A} (lim off : Z) (l : list A) :
  NoDup l -> NoDup (limit_offset lim off l).
Proof.
  intros H. rewrite <- (firstn_skipn (Z.to_nat off) l) in H.
  apply NoDup_app_remove_l in H. unfold limit_offset.
  destruct (lim <? 0); [exact H|].
  rewrite <- (firstn_skipn (Z.to_nat lim) (skipn _ l)) in H.
  apply NoDup_app_remove_r in H. exact H.
Qed.

(** ** [get_last_interaction] *)

(** [get_last_interaction(jid)] never raises.  It returns [None] exactly
    when no message of the archive was sent by [jid] or lies in the
    conversation [jid]; otherwise it returns such a message, and no such
    message is later than it. *)
Theorem get_last_interaction_latest (st : store) (jid_arg : string) :
  match get_last_interaction st jid_arg with
  | Ok None =>
      forall d r, st = Open d -> In r (join_messages d) ->
        mr_sender (fst r) <> jid_arg /\ cr_jid (snd r) <> jid_arg
  | Ok (Some m) =>
      exists d r, st = Open d /\ In r (join_messages d) /\
        (mr_sender (fst r) = jid_arg \/ cr_jid (snd r) = jid_arg) /\
        m = row_to_message r /\
        forall r', In r' (join_messages d) ->
          mr_sender (fst r') = jid_arg \/ cr_jid (snd r') = jid_arg ->
          row_ts r' <= timestamp m
  | Raise _ => False
  end.
Proof.
  destruct st as [d|]; [|intros d r H; discriminate].
  assert (E : get_last_interaction (Open d) jid_arg
              = Ok (option_map row_to_message
                      (hd_error (firstn 1 (order_ts_desc
                         (filter (involves jid_arg) (join_messages d))))))) by reflexivity.
  rewrite E; clear E.
  assert (Hinv : forall r, In r (order_ts_desc (filter (involves jid_arg) (join_messages d)))
                 <-> In r (join_messages d) /\
                     (mr_sender (fst r) = jid_arg \/ cr_jid (snd r) = jid_arg)).
  { intros r. unfold order_ts_desc. rewrite sort_by_In, filter_In. unfold involves.
    rewrite orb_true_iff, !String.eqb_eq. reflexivity. }
  pose proof (order_ts_desc_sorted (filter (involves jid_arg) (join_messages d))) as Hs.
  destruct (order_ts_desc (filter (involves jid_arg) (join_messages d))) as [|h t] eqn:El;
    simpl.
  - intros d' r Hd Hr. injection Hd as <-.
    destruct (String.eqb_spec (mr_sender (fst r)) jid_arg) as [Hsr|Hsr];
      [exfalso; apply (proj2 (Hinv r)); tauto|].
    destruct (String.eqb_spec (cr_jid (snd r)) jid_arg) as [Hc|Hc];
      [exfalso; apply (proj2 (Hinv r)); tauto|].
    split; assumption.
  - destruct (proj1 (Hinv h) (or_introl eq_refl)) as [Hh Hhi].
    exists d, h; repeat split; auto.
    intros r' Hr' Hi. rewrite row_to_message_timestamp.
    destruct (proj2 (Hinv r') (conj Hr' Hi)) as [<-|Ht]; [lia|].
    inversion Hs as [|? ? _ Hall]; subst. rewrite Forall_forall in Hall. exact (Hall r' Ht).
Qed.

Lemma left_join_last_In (d : db) (c : chat_row) (om : option msg_row) :
  In (c, om) (left_join_last d) ->
  In c (chats d) /\ last_message_consistent d (row_to_chat (c, om)).
Proof.
  unfold left_join_last. intros H. apply in_flat_map in H as (c0 & Hc0 & H).
  destruct (filter _ (messages d)) as [|m0 ms] eqn:Ef.
  - destruct H as [H|[]]. injection H as -> <-. split; [exact Hc0|].
    right; simpl; repeat split. intros m Hm Hj Ht.
    assert (Hin : In m (filter (fun m => String.eqb (cr_jid c) (mr_chat_jid m)
                       && match cr_last_message_time c with
                          | Some t => t =? mr_timestamp m | None => false end) (messages d))).
    { apply filter_In; split; [exact Hm|]. rewrite Ht, Hj, String.eqb_refl, Z.eqb_refl.
      reflexivity. }
    rewrite Ef in Hin; exact Hin.
  - apply in_map_iff in H as (m & He & Hm). injection He as -> <-.
    split; [exact Hc0|]. rewrite <- Ef in Hm. apply filter_In in Hm as [Hm Hw].
    apply andb_prop in Hw as [Hj Ht]. apply String.eqb_eq in Hj.
    left; exists m; simpl; repeat split; auto.
    destruct (cr_last_message_time c); [|discriminate]. apply Z.eqb_eq in Ht. now subst.
Qed.

Lemma left_join_last_covers (d : db) (c : chat_row) :
  In c (chats d) -> exists om, In (c, om) (left_join_last d).
Proof.
  intros Hc. unfold left_join_last.
  remember (filter (fun m => String.eqb (cr_jid c) (mr_chat_jid m)
                             && match cr_last_message_time c with
                                | Some t => t =? mr_timestamp m
                                | None => false end) (messages d)) as ms eqn:Ef.
  destruct ms as [|m0 ms];
    [exists None | exists (Some m0)]; apply in_flat_map; exists c; split; try exact Hc;
    cbv beta; rewrite <- Ef; now left.
Qed.

(** [get_chat(jid)] returns [None] exactly when no conversation has
    identifier [jid]; otherwise a conversation with that identifier, its
    name and last-message time as stored, and last-message fields that are
    those of a message of that conversation sent at exactly that time, or
    all [None] when there is no such message. *)
Theorem get_chat_lookup (d : db) (chat_jid_arg : string) :
  match get_chat (Open d) chat_jid_arg true with
  | Ok None => forall c, In c (chats d) -> cr_jid c <> chat_jid_arg
  | Ok (Some ch) =>
      jid ch = chat_jid_arg /\
      (exists c, In c (chats d) /\ cr_jid c = chat_jid_arg /\ name ch = cr_name c /\
                 last_message_time ch = cr_last_message_time c) /\
      last_message_consistent d ch
  | Raise _ => False
  end.
Proof.
  assert (E : get_chat (Open d) chat_jid_arg true
              = Ok (option_map row_to_chat
                      (hd_error (filter (fun r => String.eqb (cr_jid (fst r)) chat_jid_arg)
                                        (left_join_last d))))) by reflexivity.
  rewrite E; clear E.
  destruct (filter _ (left_join_last d)) as [|[c om] rs] eqn:Ef; simpl.
  - intros c Hc Hj. destruct (left_join_last_covers d c Hc) as [om Hom].
    assert (Hin : In (c, om) (filter (fun r => String.eqb (cr_jid (fst r)) chat_jid_arg)
                                     (left_join_last d))).
    { apply filter_In; split; [exact Hom|]. simpl; rewrite Hj; apply String.eqb_refl. }
    rewrite Ef in Hin; exact Hin.
  - assert (Hin : In (c, om) (filter (fun r => String.eqb (cr_jid (fst r)) chat_jid_arg)
                                     (left_join_last d))) by (rewrite Ef; now left).
    apply filter_In in Hin as [Hin Hj]. apply String.eqb_eq in Hj. simpl in Hj.
    destruct (left_join_last_In d c om Hin) as [Hc Hl].
    split; [exact Hj|]. split; [|exact Hl]. exists c; repeat split; auto.
Qed.

(** ** [Chat.is_group] and the group filter *)

Lemma substring_full (s : string) : substring 0 (String.length s) s = s.
Proof. induction s as [|c s IH]; simpl; [reflexivity | now rewrite IH]. Qed.

Lemma substring_split (s : string) (k : nat) :
  (k <= String.length s)%nat ->
  s = substring 0 k s ++ substring k (String.length s - k) s.
Proof.
  revert k; induction s as [|c s IH]; intros [|k] Hk; simpl in *.
  - reflexivity.
  - lia.
  - now rewrite substring_full.
  - f_equal. apply IH. lia.
Qed.

(** Every conversation that [Chat.is_group] calls a group matches the
    pattern ['%@g.us'] that the queries use to exclude groups. *)
Lemma endswith_group_pattern (j : string) :
  endswith j "@g.us" = true -> group_pattern j = true.
Proof.
  unfold endswith, group_pattern. intros H. apply andb_prop in H as [Hl He].
  apply Nat.leb_le in Hl. apply String.eqb_eq in He.
  rewrite (substring_split j (String.length j - String.length "@g.us")) by lia.
  replace (String.length j - (String.length j - String.length "@g.us"))%nat
    with (String.length "@g.us") by lia.
  rewrite He. apply (like_pct_app "@g.us"). reflexivity.
Qed.

(** [get_direct_chat_by_contact(phone)] returns a conversation whose
    identifier matches [%phone%] and that is not a group (neither by the
    [NOT LIKE '%@g.us'] filter nor by [Chat.is_group]), with consistent
    last-message fields; it returns [None] only when no non-group
    conversation has [phone] in its identifier (ignoring ASCII case). *)
Theorem get_direct_chat_by_contact_result (d : db) (sender_phone_number : string) :
  match get_direct_chat_by_contact (Open d) sender_phone_number with
  | Ok None =>
      forall c, In c (chats d) -> group_pattern (cr_jid c) = false ->
        spec_substring_ci sender_phone_number (cr_jid c) = false
  | Ok (Some ch) =>
      like ("%" ++ sender_phone_number ++ "%") (jid ch) = true /\
      group_pattern (jid ch) = false /\ is_group ch = false /\
      (exists c, In c (chats d) /\ cr_jid c = jid ch /\ name ch = cr_name c /\
                 last_message_time ch = cr_last_message_time c) /\
      last_message_consistent d ch
  | Raise _ => False
  end.
Proof.
  set (pat := "%" ++ sender_phone_number ++ "%").
  set (f := fun r : chat_row * option msg_row =>
              like pat (cr_jid (fst r)) && negb (like "%@g.us" (cr_jid (fst r)))).
  assert (E : get_direct_chat_by_contact (Open d) sender_phone_number
              = Ok (option_map row_to_chat (hd_error (firstn 1 (filter f (left_join_last d))))))
    by reflexivity.
  rewrite E; clear E.
  destruct (filter f (left_join_last d)) as [|[c om] rs] eqn:Ef; simpl.
  - intros c Hc Hg. destruct (spec_substring_ci sender_phone_number (cr_jid c)) eqn:Hs;
      [|reflexivity]. exfalso.
    destruct (left_join_last_covers d c Hc) as [om Hom].
    assert (Hin : In (c, om) (filter f (left_join_last d))).
    { apply filter_In; split; [exact Hom|]. unfold f, pat; cbn [fst].
      rewrite (like_contains _ _ Hs). unfold group_pattern in Hg. rewrite Hg. reflexivity. }
    rewrite Ef in Hin; exact Hin.
  - assert (Hin : In (c, om) (filter f (left_join_last d))) by (rewrite Ef; now left).
    apply filter_In in Hin as [Hin Hw]. unfold f in Hw; cbn [fst] in Hw.
    apply andb_prop in Hw as [Hp Hg]. apply negb_true_iff in Hg.
    destruct (left_join_last_In d c om Hin) as [Hc Hl].
    repeat split; auto.
    + unfold is_group; simpl. destruct (endswith (cr_jid c) "@g.us") eqn:Ee; [|reflexivity].
      apply endswith_group_pattern in Ee. unfold group_pattern in Ee. congruence.
    + exists c; repeat split; auto.
Qed.

(** ** [get_contact_chats] *)

Lemma join_chats_messages_In (d : db) (c : chat_row) (m : msg_row) :
  In (c, m) (join_chats_messages d) ->
  In c (chats d) /\ In m (messages d) /\ cr_jid c = mr_chat_jid m.
Proof.
  unfold join_chats_messages. intros H. apply in_flat_map in H as (c0 & Hc0 & H).
  apply in_map_iff in H as (m0 & He & Hm). injection He as -> ->.
  apply filter_In in Hm as [Hm Hj]. apply String.eqb_eq in Hj. auto.
Qed.

Lemma opt_eqb_refl {A} (eqb : A -> A -> bool) (x : option A) :
  (forall a, eqb a a = true) -> opt_eqb eqb x x = true.
Proof. intros H; destruct x; simpl; auto. Qed.

Lemma chat_eqb_refl (x : Chat) : chat_eqb x x = true.
Proof.
  unfold chat_eqb. rewrite String.eqb_refl, !opt_eqb_refl;
    auto using String.eqb_refl, Z.eqb_refl, eqb_reflx.
Qed.

Lemma distinct_chats_NoDup (l : list Chat) : NoDup (distinct_chats l).
Proof.
  induction l as [|x xs IH]; simpl; constructor.
  - intros H. apply filter_In in H as [_ H]. rewrite chat_eqb_refl in H. discriminate.
  - now apply NoDup_filter.
Qed.

Lemma distinct_chats_In (l : list Chat) (y : Chat) : In y (distinct_chats l) -> In y l.
Proof.
  induction l as [|x xs IH]; simpl; [tauto|].
  intros [<-|H]; [now left|]. apply filter_In in H as [H _]. right; now apply IH.
Qed.

Lemma order_last_active_desc_sorted (l : list Chat) :
  Sorted (fun x y => opt_ltb Z.ltb (last_message_time x) (last_message_time y) = false)
    (order_last_active_desc l).
Proof.
  apply StronglySorted_Sorted, sorted_strongly.
  - intros x y; apply opt_ltb_Z_asym.
  - intros x y H; exact H.
  - intros x y z; apply opt_ltb_Z_not_trans.
Qed.

(** [get_contact_chats(jid, limit, page)] raises nothing but
    [OverflowError].  It returns at most [limit] entries, no two equal,
    newest [last_message_time] first; each entry is a conversation
    together with the content, sender and direction of one of its messages
    that was sent by [jid] or lies in conversation [jid] (not necessarily
    the conversation's latest message). *)
Theorem get_contact_chats_entries (st : store) (jid_arg : string) (limit page : Z) :
  match get_contact_chats st jid_arg limit page with
  | Ok cs =>
      (0 <= limit -> (length cs <= Z.to_nat limit)%nat) /\ NoDup cs /\
      StronglySorted (fun x y => opt_ltb Z.ltb (last_message_time x)
                                               (last_message_time y) = false) cs /\
      (forall ch, In ch cs -> exists d c m,
         st = Open d /\ In c (chats d) /\ In m (messages d) /\ cr_jid c = mr_chat_jid m /\
         (mr_sender m = jid_arg \/ cr_jid c = jid_arg) /\ ch = row_to_chat (c, Some m))
  | Raise e => e = OverflowError
  end.
Proof.
  destruct st as [d|].
  2:{ split; [simpl; lia|]. split; [constructor|]. split; [constructor|]. intros ch []. }
  unfold get_contact_chats, bind_params. cbn [connect res_bind].
  destruct (forallb param_ok _); cbn [res_bind swallow_sqlite]; [|reflexivity].
  split; [apply limit_offset_length|]. split.
  { apply NoDup_limit_offset. unfold order_last_active_desc.
    eapply Permutation_NoDup; [symmetry; apply sort_by_perm|].
    apply distinct_chats_NoDup. }
  split.
  { apply Sorted_StronglySorted; [intros x y z; apply opt_ltb_Z_not_trans|].
    apply limit_offset_sorted, order_last_active_desc_sorted. }
  intros ch Hch. apply limit_offset_In in Hch. unfold order_last_active_desc in Hch.
  apply sort_by_In, distinct_chats_In, in_map_iff in Hch as ([c m] & <- & Hr).
  apply filter_In in Hr as [Hr Hw]. cbn [fst snd] in Hw.
  apply join_chats_messages_In in Hr as (Hc & Hm & Hj).
  exists d, c, m; repeat split; auto.
  apply orb_true_iff in Hw as [Hw|Hw]; apply String.eqb_eq in Hw; auto.
Qed.

(** ** [print_recent_messages] *)



(** ** [list_chats] *)

Lemma order_chats_In (sort_by_arg : string) (l : list (chat_row * option msg_row)) x :
  In x (order_chats sort_by_arg l) <-> In x l.
Proof. unfold order_chats; destruct (String.eqb sort_by_arg "last_active"); apply sort_by_In. Qed.

Lemma bind_params_raises_overflow ps (e : exn) : bind_params ps = Raise e -> e = OverflowError.
Proof. unfold bind_params; destruct (forallb _ _); intros H; inversion H; reflexivity. Qed.

Lemma list_chats_open (d : db) q limit page sort_by_arg :
  list_chats (Open d) q limit page true sort_by_arg
  = match bind_params ((match py_str_arg q with
                        | Some q => [PText ("%" ++ q ++ "%"); PText ("%" ++ q ++ "%")]
                        | None => [] end) ++ [PInt limit; PInt (page * limit)]) with
    | Ok _ => Ok (map row_to_chat (limit_offset limit (page * limit)
                   (order_chats sort_by_arg (filter (chat_where q) (left_join_last d)))))
    | Raise e => Raise e
    end.
Proof.
  unfold list_chats. cbn [connect res_bind negb].
  destruct (bind_params _) as [[]|e] eqn:Eb; cbn [res_bind swallow_sqlite]; [reflexivity|].
  rewrite (bind_params_raises_overflow _ _ Eb). reflexivity.
Qed.

(** Every conversation returned by [list_chats] (with its last message)
    is a stored conversation, and its last-message fields are those of a
    message of that conversation sent at exactly its [last_message_time],
    or all [None] when there is no such message; at most [limit]
    conversations are returned. *)
Theorem list_chats_last_message_consistent (d : db) (query : option string)
    (limit page : Z) (sort_by_arg : string) :
  match list_chats (Open d) query limit page true sort_by_arg with
  | Ok cs =>
      (0 <= limit -> (length cs <= Z.to_nat limit)%nat) /\
      forall ch, In ch cs ->
        (exists c, In c (chats d) /\ cr_jid c = jid ch /\ name ch = cr_name c /\
                   last_message_time ch = cr_last_message_time c) /\
        last_message_consistent d ch
  | Raise e => e = OverflowError
  end.
Proof.
  rewrite list_chats_open. destruct (bind_params _) as [u|e] eqn:Eb;
    [|exact (bind_params_raises_overflow _ _ Eb)].
  split; [intros H; rewrite length_map; now apply limit_offset_length|].
  intros ch Hch. apply in_map_iff in Hch as ([c om] & <- & Hr).
  apply limit_offset_In, order_chats_In, filter_In in Hr as [Hr _].
  destruct (left_join_last_In d c om Hr) as [Hc Hl].
  split; [exists c; repeat split; auto | exact Hl].
Qed.

(** With [sort_by="last_active"], [list_chats] returns conversations in
    descending order of [last_message_time], those without one last; the
    only exception it raises is [OverflowError]. *)
Theorem list_chats_sorted_by_activity (st : store) (query : option string) (limit page : Z)
    (include_last_message : bool) :
  match list_chats st query limit page include_last_message "last_active" with
  | Ok cs => StronglySorted (fun x y => opt_ltb Z.ltb (last_message_time x)
                                                      (last_message_time y) = false) cs
  | Raise e => e = OverflowError
  end.
Proof.
  destruct st as [d|]; [|constructor].
  destruct include_last_message; [|constructor].
  rewrite list_chats_open. destruct (bind_params _) as [u|e] eqn:Eb;
    [|exact (bind_params_raises_overflow _ _ Eb)].
  apply Sorted_StronglySorted; [intros x y z; apply opt_ltb_Z_not_trans|].
  apply (Sorted_map row_to_chat
           (fun x y => opt_ltb Z.ltb (cr_last_message_time (fst x))
                                     (cr_last_message_time (fst y)) = false)).
  { intros [x ox] [y oy]; simpl; auto. }
  apply limit_offset_sorted. unfold order_chats; simpl.
  apply StronglySorted_Sorted, sorted_strongly.
  - intros x y; apply opt_ltb_Z_asym.
  - intros x y H; exact H.
  - intros x y z; apply opt_ltb_Z_not_trans.
Qed.

(** ** Text filters keep every substring match *)

(** The text filter of [list_messages] keeps every message whose content
    contains the query, ignoring ASCII case. *)
Theorem list_messages_query_keeps_substring_matches (date_range : option (Z * Z))
    (sender_phone_number chat_jid_arg : option string) (query : string)
    (r : msg_row * chat_row) :
  spec_substring_ci query (mr_content (fst r)) = true ->
  message_where date_range sender_phone_number chat_jid_arg (Some query) r
  = message_where date_range sender_phone_number chat_jid_arg None r.
Proof.
  intros H. unfold message_where; simpl py_str_arg at 3 4.
  destruct (String.eqb query ""); [reflexivity|].
  rewrite (like_LOWER_contains _ _ H). reflexivity.
Qed.

(** The text filter of [list_chats] keeps every conversation whose name
    or identifier contains the query, ignoring ASCII case. *)
Theorem list_chats_query_keeps_substring_matches (query : string)
    (r : chat_row * option msg_row) :
  match cr_name (fst r) with Some n => spec_substring_ci query n = true | None => False end
  \/ spec_substring_ci query (cr_jid (fst r)) = true ->
  chat_where (Some query) r = true.
Proof.
  intros H. unfold chat_where; simpl py_str_arg.
  destruct (String.eqb query ""); [reflexivity|].
  destruct H as [H|H].
  - destruct (cr_name (fst r)) as [n|]; [|contradiction].
    rewrite (like_LOWER_contains _ _ H). reflexivity.
  - rewrite (like_contains _ _ H), orb_true_r. reflexivity.
Qed.

(** ** [search_contacts] *)

Lemma search_contacts_open (d : db) (query : string) :
  search_contacts (Open d) query
  = Ok (map row_to_contact
          (limit_offset 50 0
             (order_name_jid
                (distinct (map (fun c => (cr_jid c, cr_name c))
                   (filter (contact_where ("%" ++ query ++ "%")) (chats d))))))).
Proof. reflexivity. Qed.

Lemma distinct_NoDup (l : list (string * option string)) : NoDup (distinct l).
Proof.
  induction l as [|x xs IH]; simpl; constructor.
  - intros H. apply filter_In in H as [_ H].
    rewrite (proj2 (pair_eqb_eq x x) eq_refl) in H. discriminate.
  - now apply NoDup_filter.
Qed.

Lemma distinct_In_inv (l : list (string * option string)) (y : string * option string) :
  In y (distinct l) -> In y l.
Proof.
  induction l as [|x xs IH]; simpl; [tauto|].
  intros [<-|H]; [now left|]. apply filter_In in H as [H _]. right; now apply IH.
Qed.

(** [search_contacts] never raises; it returns at most 50 contacts, no
    two with the same identifier and name, none of them a group, each one
    a stored conversation. *)
Theorem search_contacts_results (st : store) (query : string) :
  match search_contacts st query with
  | Ok cs =>
      (length cs <= 50)%nat /\
      NoDup (map (fun k => (contact_jid k, contact_name k)) cs) /\
      forall k, In k cs ->
        group_pattern (contact_jid k) = false /\ endswith (contact_jid k) "@g.us" = false /\
        exists d c, st = Open d /\ In c (chats d) /\
                    cr_jid c = contact_jid k /\ cr_name c = contact_name k
  | Raise _ => False
  end.
Proof.
  destruct st as [d|]; [|simpl; split; [lia|split; [constructor | intros k []]]].
  rewrite search_contacts_open.
  split; [rewrite length_map; apply (limit_offset_length 50); lia|].
  split.
  { rewrite map_map. erewrite map_ext; [rewrite map_id|intros [j n]; reflexivity].
    apply NoDup_limit_offset. unfold order_name_jid.
    eapply Permutation_NoDup; [symmetry; apply sort_by_perm|]. apply distinct_NoDup. }
  intros k Hk. apply in_map_iff in Hk as ([j n] & <- & Hr).
  apply limit_offset_In in Hr. unfold order_name_jid in Hr.
  apply sort_by_In, distinct_In_inv, in_map_iff in Hr as (c & Hc & Hr).
  apply filter_In in Hr as [Hr Hw]. injection Hc as <- <-.
  unfold contact_where in Hw. apply andb_prop in Hw as [_ Hg].
  apply negb_true_iff in Hg. simpl.
  split; [exact Hg|]. split.
  - destruct (endswith (cr_jid c) "@g.us") eqn:He; [|reflexivity].
    apply endswith_group_pattern in He. congruence.
  - exists d, c; auto.
Qed.

Lemma split_at_first_spec (s : string) :
  ~ In "@"%char (list_ascii_of_string (split_at_first s)) /\
  exists rest, s = split_at_first s ++ rest /\ (rest = "" \/ exists r, rest = String "@" r).
Proof.
  induction s as [|c s [IHn (rest & IHs & IHr)]]; simpl.
  - split; [tauto|]. exists ""; auto.
  - destruct (Ascii.eqb_spec c "@"%char) as [->|Hc]; simpl.
    + split; [tauto|]. exists (String "@" s); split; [reflexivity|]. right; eauto.
    + split; [intros [H|H]; [congruence | exact (IHn H)]|].
      exists rest; split; [now rewrite <- IHs | exact IHr].
Qed.

(** The [phone_number] of each contact found is its identifier up to the
    first ['@']: it holds no ['@'], and the identifier is the phone number
    followed by nothing or by ['@'] and the rest. *)
Theorem search_contacts_phone_number (st : store) (query : string) :
  match search_contacts st query with
  | Ok cs => forall k, In k cs ->
      ~ In "@"%char (list_ascii_of_string (phone_number k)) /\
      exists rest, contact_jid k = phone_number k ++ rest /\
                   (rest = "" \/ exists r, rest = String "@" r)
  | Raise _ => False
  end.
Proof.
  destruct st as [d|]; [|intros k []].
  rewrite search_contacts_open. intros k Hk.
  apply in_map_iff in Hk as ([j n] & <- & _). apply split_at_first_spec.
Qed.

(** [search_contacts] finds every non-group conversation whose name or
    identifier contains the query (ignoring ASCII case), provided at most
    50 conversations pass its filter. *)
Theorem search_contacts_finds_substring_matches (d : db) (query : string) (c : chat_row) :
  In c (chats d) -> group_pattern (cr_jid c) = false ->
  match cr_name c with Some n => spec_substring_ci query n = true | None => False end
  \/ spec_substring_ci query (cr_jid c) = true ->
  (length (filter (contact_where ("%" ++ query ++ "%")) (chats d)) <= 50)%nat ->
  exists cs, search_contacts (Open d) query = Ok cs /\
             In (row_to_contact (cr_jid c, cr_name c)) cs.
Proof.
  intros Hc Hg Hs Hlen. eexists; split; [apply search_contacts_open|].
  apply in_map. rewrite limit_offset_firstn by lia. rewrite firstn_all2.
  - unfold order_name_jid. apply sort_by_In, distinct_In.
    apply (in_map (fun c0 => (cr_jid c0, cr_name c0))).
    apply filter_In; split; [exact Hc|]. unfold contact_where. rewrite Hg, andb_true_r.
    destruct Hs as [Hs|Hs].
    + destruct (cr_name c) as [n|]; [|contradiction].
      rewrite (like_LOWER_contains _ _ Hs). reflexivity.
    + rewrite (like_LOWER_contains _ _ Hs), orb_true_r. reflexivity.
  - unfold order_name_jid. rewrite (Permutation_length (sort_by_perm _ _)).
    pose proof (distinct_length (map (fun c => (cr_jid c, cr_name c))
      (filter (contact_where ("%" ++ query ++ "%")) (chats d)))) as L.
    rewrite length_map in L. change (Z.to_nat 50) with 50%nat. lia.
Qed.

(** ** [list_messages] *)

Lemma list_messages_open (d : db) dr s c q (limit page : Z) incl cb ca :
  list_messages (Open d) dr s c q limit page incl cb ca
  = match bind_params (message_params dr s c q limit (page * limit)) with
    | Ok _ =>
        swallow_sqlite
          (let result := select_messages d dr s c q limit (page * limit) in
           if incl && negb (match result with [] => true | _ => false end)
           then expand_context (Open d) result cb ca else Ok result)
    | Raise e => Raise e
    end.
Proof.
  unfold list_messages. cbn [connect res_bind].
  destruct (bind_params _) as [u|e] eqn:Eb; [reflexivity|].
  rewrite (bind_params_raises_overflow _ _ Eb). reflexivity.
Qed.

(** Without context, every message [list_messages] returns satisfies each
    filter given: its timestamp lies in the date range (bounds included),
    its sender and conversation are those asked for, and its content
    matches the query pattern; the only exception it raises is
    [OverflowError]. *)
Theorem list_messages_respects_filters (st : store) (date_range : option (Z * Z))
    (sender_phone_number chat_jid_arg query : option string)
    (limit page context_before context_after : Z) :
  match list_messages st date_range sender_phone_number chat_jid_arg query limit page
          false context_before context_after with
  | Ok ms => forall m, In m ms ->
      (forall lo hi, date_range = Some (lo, hi) -> lo <= timestamp m <= hi) /\
      (forall s, py_str_arg sender_phone_number = Some s -> sender m = s) /\
      (forall j, py_str_arg chat_jid_arg = Some j -> chat_jid m = j) /\
      (forall q, py_str_arg query = Some q ->
         like (LOWER ("%" ++ q ++ "%")) (LOWER (content m)) = true)
  | Raise e => e = OverflowError
  end.
Proof.
  destruct st as [d|]; [|intros m []].
  rewrite list_messages_open.
  destruct (bind_params _) as [u|e] eqn:Eb; [|exact (bind_params_raises_overflow _ _ Eb)].
  cbn [andb swallow_sqlite]. intros m Hm.
  unfold select_messages in Hm. apply in_map_iff in Hm as (r & <- & Hr).
  apply limit_offset_In in Hr. unfold order_ts_desc in Hr.
  apply sort_by_In, filter_In in Hr as [Hr Hw].
  pose proof (row_to_message_chat_jid d r Hr) as Hcj.
  destruct r as [mr cr]. unfold message_where in Hw; cbn [fst] in Hw, Hcj.
  apply andb_prop in Hw as [Hw Hq]. apply andb_prop in Hw as [Hw Hc].
  apply andb_prop in Hw as [Hd Hs].
  split; [|split; [|split]].
  - intros lo hi ->. apply andb_prop in Hd as [H1 H2].
    apply Z.leb_le in H1; apply Z.leb_le in H2. simpl; lia.
  - intros x Hx. rewrite Hx in Hs. apply String.eqb_eq in Hs. exact Hs.
  - intros j Hj. rewrite Hj in Hc. apply String.eqb_eq in Hc. rewrite Hcj. exact Hc.
  - intros x Hx. rewrite Hx in Hq. exact Hq.
Qed.

Lemma get_message_context_sizes (st : store) (message_id : string) (b a : nat)
    (ctx : MessageContext) :
  get_message_context st message_id (Z.of_nat b) (Z.of_nat a) = Ok ctx ->
  (length (before ctx) <= b)%nat /\ (length (after ctx) <= a)%nat.
Proof.
  intros H. apply get_message_context_ok_inv in H
    as (d & r & _ & _ & _ & _ & _ & _ & -> & ->).
  rewrite !length_map.
  split; rewrite <- (Nat2Z.id b) at 2 || rewrite <- (Nat2Z.id a) at 2;
    apply limit_offset_length; lia.
Qed.

Lemma get_message_context_resolved_raise (d : db) (r : msg_row * chat_row) (b a : Z) (e : exn) :
  In r (join_messages d) ->
  get_message_context (Open d) (mr_id (fst r)) b a = Raise e -> e = OverflowError.
Proof.
  intros Hr. unfold get_message_context, bind_params; simpl.
  destruct (filter _ (join_messages d)) as [|r' rs] eqn:Ef.
  - exfalso.
    match type of Ef with filter ?f ?l = _ =>
      assert (Hin : In r (filter f l)) by (apply filter_In; split;
        [exact Hr | apply String.eqb_eq; reflexivity]) end.
    rewrite Ef in Hin; exact Hin.
  - simpl. destruct (int64_ok b); simpl; [|intros H; inversion H; reflexivity].
    destruct (int64_ok a); simpl; intros H; inversion H; reflexivity.
Qed.

Lemma expand_context_raise (d : db) (ts : list Message) (cb ca : Z) (e : exn) :
  (forall t, In t ts -> exists r, In r (join_messages d) /\ mr_id (fst r) = id t) ->
  expand_context (Open d) ts cb ca = Raise e -> e = OverflowError.
Proof.
  induction ts as [|t ts IH]; simpl; intros Hts; [discriminate|].
  destruct (get_message_context (Open d) (id t) cb ca) as [ctx|e'] eqn:E; simpl.
  - destruct (expand_context (Open d) ts cb ca); simpl; [discriminate|].
    apply IH. intros t' Ht'; apply Hts; now right.
  - intros H; inversion H; subst.
    destruct (Hts t (or_introl eq_refl)) as (r & Hr & Hid). rewrite <- Hid in E.
    exact (get_message_context_resolved_raise d r _ _ _ Hr E).
Qed.

Lemma expand_context_length (st : store) (ts : list Message) (ctxs : list MessageContext)
    (cb ca : nat) :
  Forall2 (fun t ctx => get_message_context st (id t) (Z.of_nat cb) (Z.of_nat ca) = Ok ctx)
    ts ctxs ->
  (length (flat_map (fun ctx => (before ctx ++ message ctx :: after ctx)%list) ctxs)
   <= length ctxs * (cb + 1 + ca))%nat.
Proof.
  induction 1 as [|t ctx ts ctxs Hctx Hf IH]; simpl; [lia|].
  apply get_message_context_sizes in Hctx as [Hb Ha].
  rewrite !length_app; simpl. lia.
Qed.

(** With context, [list_messages] returns at most
    [limit * (context_before + 1 + context_after)] messages, and the only
    exception it raises is [OverflowError]. *)
Theorem list_messages_context_size (st : store) (date_range : option (Z * Z))
    (sender_phone_number chat_jid_arg query : option string)
    (limit page context_before context_after : nat) :
  match list_messages st date_range sender_phone_number chat_jid_arg query
          (Z.of_nat limit) (Z.of_nat page) true
          (Z.of_nat context_before) (Z.of_nat context_after) with
  | Ok out => (length out <= limit * (context_before + 1 + context_after))%nat
  | Raise e => e = OverflowError
  end.
Proof.
  destruct st as [d|]; [|simpl; lia].
  rewrite list_messages_open.
  destruct (bind_params _) as [u|e] eqn:Eb; [|exact (bind_params_raises_overflow _ _ Eb)].
  cbv zeta. cbn [andb].
  assert (Hsel : forall t, In t (select_messages d date_range sender_phone_number
                                   chat_jid_arg query (Z.of_nat limit)
                                   (Z.of_nat page * Z.of_nat limit)) ->
                 exists r, In r (join_messages d) /\ mr_id (fst r) = id t)
    by (intros t Ht; eapply select_messages_from_join; exact Ht).
  assert (Hlen : (length (select_messages d date_range sender_phone_number chat_jid_arg
                            query (Z.of_nat limit) (Z.of_nat page * Z.of_nat limit))
                  <= limit)%nat).
  { unfold select_messages. rewrite length_map.
    eapply Nat.le_trans; [apply limit_offset_length; lia | rewrite Nat2Z.id; lia]. }
  destruct (select_messages _ _ _ _ _ _ _) as [|t ts] eqn:Es; cbn [negb swallow_sqlite].
  { simpl; lia. }
  destruct (expand_context (Open d) (t :: ts) _ _) as [out|e] eqn:Ee.
  - cbn [swallow_sqlite].
    apply expand_context_ok in Ee as (ctxs & Hf & ->).
    assert (Hl : length ctxs = length (t :: ts)) by (symmetry; eapply Forall2_length; exact Hf).
    rewrite <- Hl in Hlen.
    pose proof (expand_context_length _ _ _ _ _ Hf). nia.
  - rewrite (expand_context_raise d _ _ _ e Hsel Ee). reflexivity.
Qed.

(** ** [get_message_context]: the windows are the nearest messages *)

(** The windows of [get_message_context] are the nearest messages: an
    earlier message of the target's conversation that is not in the
    before-window is no later than any entry of it, and the window is
    then full; symmetrically for later messages and the after-window. *)
Theorem get_message_context_nearest (st : store) (message_id : string) (b a : nat)
    (ctx : MessageContext) :
  get_message_context st message_id (Z.of_nat b) (Z.of_nat a) = Ok ctx ->
  exists d, st = Open d /\
  (forall r, In r (join_messages d) -> mr_chat_jid (fst r) = chat_jid (message ctx) ->
     row_ts r < timestamp (message ctx) ->
     In (row_to_message r) (before ctx) \/
     (length (before ctx) = b /\ forall m, In m (before ctx) -> row_ts r <= timestamp m)) /\
  (forall r, In r (join_messages d) -> mr_chat_jid (fst r) = chat_jid (message ctx) ->
     timestamp (message ctx) < row_ts r ->
     In (row_to_message r) (after ctx) \/
     (length (after ctx) = a /\ forall m, In m (after ctx) -> timestamp m <= row_ts r)).
Proof.
  intros H. apply get_message_context_ok_inv in H
    as (d & r0 & -> & Hr0 & _ & _ & _ & Hmsg & Hb & Ha).
  exists d; split; [reflexivity|].
  rewrite Hmsg, (row_to_message_chat_jid d r0 Hr0), row_to_message_timestamp.
  split.
  - intros r Hr Hc Ht. rewrite Hb, limit_offset_firstn, Nat2Z.id by lia.
    match goal with |- context [firstn b (order_ts_desc ?F)] =>
      assert (Hin : In r (order_ts_desc F)) by
        (apply sort_by_In, filter_In; split; [exact Hr|];
         rewrite Hc, String.eqb_refl; apply Z.ltb_lt; exact Ht);
      destruct (firstn_top _ b _ r (order_ts_desc_sorted F) Hin) as [Hw|[Hlen Hall]] end.
    + left; now apply in_map.
    + right; split; [now rewrite length_map|].
      intros m Hm. apply in_map_iff in Hm as (y & <- & Hy).
      rewrite row_to_message_timestamp. exact (Hall y Hy).
  - intros r Hr Hc Ht. rewrite Ha, limit_offset_firstn, Nat2Z.id by lia.
    match goal with |- context [firstn a (order_ts_asc ?F)] =>
      assert (Hin : In r (order_ts_asc F)) by
        (apply sort_by_In, filter_In; split; [exact Hr|];
         rewrite Hc, String.eqb_refl; apply Z.ltb_lt; exact Ht);
      destruct (firstn_top _ a _ r (order_ts_asc_sorted F) Hin) as [Hw|[Hlen Hall]] end.
    + left; now apply in_map.
    + right; split; [now rewrite length_map|].
      intros m Hm. apply in_map_iff in Hm as (y & <- & Hy).
      rewrite row_to_message_timestamp. exact (Hall y Hy).
Qed.

(** ** Instances of the properties above *)

Lemma list_messages_query_keeps_substring_matches_witness :
  message_where None None None (Some "ELL") (msg_at "m1" "111@s.whatsapp.net" 1, chat111)
  = message_where None None None None (msg_at "m1" "111@s.whatsapp.net" 1, chat111).
Proof.
  apply (list_messages_query_keeps_substring_matches None None None "ELL"
           (msg_at "m1" "111@s.whatsapp.net" 1, chat111)).
  reflexivity.
Defined.

Lemma list_chats_query_keeps_substring_matches_witness :
  chat_where (Some "LIC") (chat111, None) = true.
Proof.
  apply (list_chats_query_keeps_substring_matches "LIC" (chat111, None)).
  left; reflexivity.
Defined.

Lemma search_contacts_finds_substring_matches_witness :
  exists cs, search_contacts (Open db_bob) "5551" = Ok cs /\
    In (row_to_contact ("15551234567@s.whatsapp.net", Some "Bob")) cs.
Proof.
  apply (search_contacts_finds_substring_matches db_bob "5551"
           {| cr_jid := "15551234567@s.whatsapp.net"; cr_name := Some "Bob";
              cr_last_message_time := None |});
    [left; reflexivity | reflexivity | right; reflexivity | apply Nat.leb_le; reflexivity].
Defined.

Lemma get_message_context_nearest_witness :
  match get_message_context (Open db_three) "m3" (Z.of_nat 1) (Z.of_nat 0) with
  | Ok ctx =>
      exists d, Open db_three = Open d /\
      (forall r, In r (join_messages d) -> mr_chat_jid (fst r) = chat_jid (message ctx) ->
         row_ts r < timestamp (message ctx) ->
         In (row_to_message r) (before ctx) \/
         (length (before ctx) = 1%nat /\ forall m, In m (before ctx) -> row_ts r <= timestamp m)) /\
      (forall r, In r (join_messages d) -> mr_chat_jid (fst r) = chat_jid (message ctx) ->
         timestamp (message ctx) < row_ts r ->
         In (row_to_message r) (after ctx) \/
         (length (after ctx) = 0%nat /\ forall m, In m (after ctx) -> timestamp m <= row_ts r))
  | Raise _ => False
  end.
Proof. exact (get_message_context_nearest (Open db_three) "m3" 1 0 _ eq_refl). Defined.
